(** * Hyperinstall: a shallow embedding of [src/Hyperinstall.js]

    The development follows the source file top to bottom.  Part I holds the
    definitions: JavaScript values and the few lodash functions the class
    uses, the process and file system the class runs against, and then the
    methods of [class Hyperinstall] one by one under their own names.
    Part II holds the theorems.

    Asynchronous methods are embedded by their outcome: an [async] method is
    a state transformer that returns its resolved value or the error it
    rejects with, or records that it never settles.  The tasks of one run
    are embedded in the order of the config; they share nothing but the
    install lock and the object of updated packages, which is keyed by
    name.  The one place where interleaving matters, the install lock, is
    embedded a second time, as a transition system over the suspension
    points of [updatePackageAsync] in which any task may move next.

    What lies outside the embedding: property names that collide with
    [__proto__] or with members of [Object.prototype] read through a
    computed key; numbers that are not integers; strings beyond bytes; an
    install command that never exits. *)

From Stdlib Require Import ZArith String Ascii.
From stdpp Require Import base option list strings pretty gmap sorting.

Set Warnings "-register-all".

Local Open Scope string_scope.
Local Open Scope list_scope.

(* ===================================================================== *)
(** * Part I: definitions                                                 *)
(* ===================================================================== *)

(** ** JavaScript values

    [VUndef] is [undefined]; the other constructors are the JSON values.
    A JSON number is only ever compared for equality here and is carried as
    an integer.  An object is the list of its own enumerable properties in
    insertion order; a lookup sees the first entry of a key.  The accessor
    [__proto__] and the members inherited from [Object.prototype] are not
    part of the model. *)
Inductive value : Type :=
| VUndef
| VNull
| VBool (b : bool)
| VNum (n : Z)
| VStr (s : string)
| VArr (xs : list value)
| VObj (kvs : list (string * value)).

(** Errors a method can throw or reject with.  The last one is no error:
    it stands for a promise that never settles, so that the code awaiting
    it never continues. *)
Inductive error : Type :=
| ENOENT          (* fs: no such file or directory *)
| EIO             (* fs: any other failure *)
| SyntaxError     (* JSON.parse *)
| TypeError
| InvalidArg      (* npm-package-arg refuses the argument *)
| InstallFailed   (* the install command exits non-zero *)
| NeverSettles.

Inductive result (A : Type) : Type :=
| Ok (a : A)
| Err (e : error).
Arguments Ok {A} a.
Arguments Err {A} e.

Definition is_ok {A} (r : result A) : bool :=
  match r with Ok _ => true | Err _ => false end.

(** The outcome of awaiting two promises together, given the outcome of
    the first and of the rest: a rejection wins over a promise that never
    settles, and the first rejection wins. *)
Definition together {A B C} (f : A -> B -> C) (r : result A) (r' : result B)
    : result C :=
  match r, r' with
  | Ok a, Ok b => Ok (f a b)
  | Ok _, Err e => Err e
  | Err NeverSettles, Err e => Err e
  | Err e, _ => Err e
  end.

(** *** Own properties *)
Section Props.
Context {A : Type}.

Fixpoint lookup_prop (k : string) (o : list (string * A)) : option A :=
  match o with
  | [] => None
  | (k', v) :: o' => if String.eqb k k' then Some v else lookup_prop k o'
  end.

(** [o.hasOwnProperty(k)], also [k in o] for the objects of the model. *)
Definition hasOwn (k : string) (o : list (string * A)) : bool :=
  match lookup_prop k o with Some _ => true | None => false end.

(** [o[k] = v]: an existing key keeps its place, a new one goes last. *)
Fixpoint set_prop (k : string) (v : A) (o : list (string * A)) : list (string * A) :=
  match o with
  | [] => [(k, v)]
  | (k', v') :: o' =>
      if String.eqb k k' then (k, v) :: o' else (k', v') :: set_prop k v o'
  end.

(** [delete o[k]] *)
Fixpoint delete_prop (k : string) (o : list (string * A)) : list (string * A) :=
  match o with
  | [] => []
  | (k', v') :: o' =>
      if String.eqb k k' then delete_prop k o' else (k', v') :: delete_prop k o'
  end.

(** [Object.keys(o)] *)
Definition keys (o : list (string * A)) : list string := map fst o.

(** [Object.assign(target, source)] for a source given by its own entries. *)
Definition assign (target source : list (string * A)) : list (string * A) :=
  fold_left (fun t kv => set_prop (fst kv) (snd kv) t) source target.

End Props.

Abbreviation props := (list (string * value)).

(** Decimal index keys ["0"], ["1"], ... of an array or a string. *)
Definition index_entries {A} (xs : list A) : list (string * A) :=
  imap (fun i x => (pretty i, x)) xs.

Definition chars (s : string) : list value :=
  map (fun c => VStr (String c EmptyString)) (list_ascii_of_string s).

(** The own enumerable string-keyed properties of a value, as
    [Object.assign] and an object spread read them from a source. *)
Definition ownEntries (v : value) : props :=
  match v with
  | VObj o => o
  | VArr xs => index_entries xs
  | VStr s => index_entries (chars s)
  | _ => []
  end.

(** [v.k] for a [v] that is neither [null] nor [undefined] and a name [k]
    that no prototype defines (the field names of the state file and of
    package.json). *)
Definition field (v : value) (k : string) : value :=
  match v with
  | VObj o => default VUndef (lookup_prop k o)
  | _ => VUndef
  end.

(** [v[k]] for a computed key, as [baseGet] of lodash walks a path. *)
Definition getProperty (v : value) (k : string) : value :=
  match v with
  | VObj o => default VUndef (lookup_prop k o)
  | VArr xs =>
      if String.eqb k "length" then VNum (Z.of_nat (length xs))
      else default VUndef (lookup_prop k (index_entries xs))
  | VStr s =>
      if String.eqb k "length" then VNum (Z.of_nat (String.length s))
      else default VUndef (lookup_prop k (index_entries (chars s)))
  | _ => VUndef
  end.

(** Truthiness: what [!v] and [v && ...] test. *)
Definition truthy (v : value) : bool :=
  match v with
  | VUndef | VNull => false
  | VBool b => b
  | VNum n => negb (Z.eqb n 0)
  | VStr s => negb (String.eqb s "")
  | VArr _ | VObj _ => true
  end.

(** [a === b] for two values that come from two different [JSON.parse]
    calls (the state file and the config file), or from a parse and a
    literal: scalars are compared by type and value, and two arrays or
    objects are never the same reference. *)
Definition strict_eq (a b : value) : bool :=
  match a, b with
  | VUndef, VUndef => true
  | VNull, VNull => true
  | VBool x, VBool y => Bool.eqb x y
  | VNum x, VNum y => Z.eqb x y
  | VStr x, VStr y => String.eqb x y
  | _, _ => false
  end.

(** [isEqual] of lodash: deep comparison; arrays by position, objects by
    the number of own keys and then key by key, whatever the key order. *)
Fixpoint isEqual (a b : value) {struct a} : bool :=
  match a, b with
  | VUndef, VUndef => true
  | VNull, VNull => true
  | VBool x, VBool y => Bool.eqb x y
  | VNum x, VNum y => Z.eqb x y
  | VStr x, VStr y => String.eqb x y
  | VArr xs, VArr ys =>
      (fix elems (xs ys : list value) : bool :=
         match xs, ys with
         | [], [] => true
         | x :: xs', y :: ys' => isEqual x y && elems xs' ys'
         | _, _ => false
         end) xs ys
  | VObj o, VObj p =>
      Nat.eqb (length o) (length p) &&
      (fix entries (o : props) : bool :=
         match o with
         | [] => true
         | (k, v) :: o' =>
             match lookup_prop k p with
             | Some w => isEqual v w
             | None => false
             end && entries o'
         end) o
  | _, _ => false
  end.

(** [isEmpty] of lodash on an object. *)
Definition isEmpty {A} (o : list (string * A)) : bool :=
  match o with [] => true | _ => false end.

(** Template-literal conversion [`${v}`]. *)
Fixpoint toStr (v : value) : string :=
  match v with
  | VUndef => "undefined"
  | VNull => "null"
  | VBool true => "true"
  | VBool false => "false"
  | VNum n => pretty n
  | VStr s => s
  | VArr xs =>
      String.concat ","
        (map (fun x => match x with VUndef | VNull => "" | _ => toStr x end) xs)
  | VObj _ => "[object Object]"
  end.

(** [JSON.parse(JSON.stringify(v))]: what a value looks like once it has
    been through the state file.  A property whose value is [undefined] is
    dropped, and [undefined] inside an array becomes [null]. *)
Fixpoint jsonify (v : value) : value :=
  match v with
  | VArr xs =>
      VArr (map (fun x => match x with VUndef => VNull | _ => jsonify x end) xs)
  | VObj o =>
      VObj ((fix entries (o : props) : props :=
               match o with
               | [] => []
               | (k, VUndef) :: o' => entries o'
               | (k, v) :: o' => (k, jsonify v) :: entries o'
               end) o)
  | _ => v
  end.

(** ** Collaborators outside the repository

    Functions of node and of third-party packages that the class calls and
    whose code is not part of the repository. *)
Record descriptor : Type := { dtype : string; dspec : string }.

Class Platform : Type := {
  (** lodash: [reIsDeepProp.test] and [stringToPath], the path syntax of [get] *)
  isDeepProp : string -> bool;
  stringToPath : string -> list string;
  (** crypto: [createHash(algorithm)], [update] and [digest('hex')], from
      the algorithm's name and the bytes to their hex digest *)
  createHash : string -> string -> string;
  (** path: [join], and [resolve] and [relative] with the working directory
      they consult given as first argument *)
  path_join : string -> string -> string;
  path_resolve : string -> list string -> string;
  path_relative : string -> string -> string -> string;
  (** npm-package-arg, with the working directory it resolves against *)
  npmPackageArg : string -> string -> result descriptor;
}.

(** ** lodash/get *)

(** [reIsPlainProp = /^\w*$/] *)
Definition isWordChar (c : ascii) : bool :=
  let n := nat_of_ascii c in
  (Nat.leb 48 n && Nat.leb n 57) || (Nat.leb 65 n && Nat.leb n 90) ||
  (Nat.leb 97 n && Nat.leb n 122) || Nat.eqb n 95.

Definition isPlainProp (s : string) : bool :=
  forallb isWordChar (list_ascii_of_string s).

Section Lodash.
Context {P : Platform}.

(** [isKey(value, object)] for a string [value]. *)
Definition isKey (name : string) (object : value) : bool :=
  isPlainProp name || negb (isDeepProp name) ||
  match object with VObj o => hasOwn name o | _ => false end.

Definition castPath (name : string) (object : value) : list string :=
  if isKey name object then [name] else stringToPath name.

(** The loop of [baseGet]: it stops at the first [null] or [undefined] and
    then yields [undefined] unless the whole path was consumed. *)
Fixpoint walk (object : value) (path : list string) : value :=
  match path with
  | [] => object
  | k :: path' =>
      match object with
      | VUndef | VNull => VUndef
      | _ => walk (getProperty object k) path'
      end
  end.

Definition get (object : value) (name : string) : value :=
  match object with
  | VUndef | VNull => VUndef
  | _ =>
      match castPath name object with
      | [] => VUndef
      | path => walk object path
      end
  end.

End Lodash.

(** ** The instance, the process and the file system *)

(** A file: a JSON document, a file whose text [JSON.parse] refuses, or a
    file that cannot be read for a reason other than absence. *)
Inductive file : Type :=
| Json (v : value)
| Malformed
| Unreadable.

(** What the run does to the outside, in order. *)
Inductive event : Type :=
| Chdir (dir : string)                        (* process.chdir *)
| Exec (packagePath : string) (ok : bool)     (* npm install, and whether it exited with 0 *)
| Rimraf (path : string)
| LogInstalling (name : string)
| LogFinished (name : string)
| LogRemoved (name : string)
| LogUpdated (names : list string)            (* the summary *)
| WarnNoConfig.

(** The instance together with the world it runs in.  The [installLock] of
    the instance is left to the transition system further down. *)
Record Machine : Type := mkMachine {
  (** the fields of the [Hyperinstall] instance *)
  root : string;
  forceInstallation : bool;
  state : value;
  updatedPackages : props;
  (** the process *)
  cwd : string;
  trace : list event;
  (** the file system: the JSON files by path; the directories that exist;
      for a directory, the absolute paths fstream-npm emits as [child], in
      order, or the error of the stream; for a path, the bytes that reading
      it gives *)
  files : gmap string file;
  dirs : string -> bool;
  children : string -> result (list string);
  contents : string -> result string;
  (** the exit of [npm install] run in a directory: [true] for 0 *)
  npmExit : string -> bool;
}.

(** The constructor: [new Hyperinstall(root)] in a given process and file
    system. *)
Definition Hyperinstall_new (root0 cwd0 : string) (files0 : gmap string file)
    (dirs0 : string -> bool)
    (children0 : string -> result (list string))
    (contents0 : string -> result string)
    (npmExit0 : string -> bool) : Machine :=
  mkMachine root0 false (VObj []) [] cwd0 [] files0 dirs0 children0 contents0 npmExit0.

Definition set_state (v : value) (m : Machine) : Machine :=
  mkMachine (root m) (forceInstallation m) v (updatedPackages m) (cwd m)
    (trace m) (files m) (dirs m) (children m) (contents m) (npmExit m).

Definition set_updatedPackages (u : props) (m : Machine) : Machine :=
  mkMachine (root m) (forceInstallation m) (state m) u (cwd m)
    (trace m) (files m) (dirs m) (children m) (contents m) (npmExit m).

Definition set_cwd (d : string) (m : Machine) : Machine :=
  mkMachine (root m) (forceInstallation m) (state m) (updatedPackages m) d
    (trace m) (files m) (dirs m) (children m) (contents m) (npmExit m).

Definition set_files (fs : gmap string file) (m : Machine) : Machine :=
  mkMachine (root m) (forceInstallation m) (state m) (updatedPackages m) (cwd m)
    (trace m) fs (dirs m) (children m) (contents m) (npmExit m).

Definition emit (e : event) (m : Machine) : Machine :=
  mkMachine (root m) (forceInstallation m) (state m) (updatedPackages m) (cwd m)
    (trace m ++ [e]) (files m) (dirs m) (children m) (contents m) (npmExit m).

(** An asynchronous or throwing computation: its outcome and the machine it
    leaves.  An error keeps the effects made before it. *)
Definition M (A : Type) : Type := Machine -> result A * Machine.

Definition ret {A} (a : A) : M A := fun m => (Ok a, m).
Definition throw {A} (e : error) : M A := fun m => (Err e, m).
Definition bind {A B} (c : M A) (k : A -> M B) : M B :=
  fun m => match c m with
           | (Ok a, m') => k a m'
           | (Err e, m') => (Err e, m')
           end.
Definition lift {A} (r : result A) : M A := fun m => (r, m).
Definition reads {A} (f : Machine -> A) : M A := fun m => (Ok (f m), m).
Definition modify (f : Machine -> Machine) : M unit := fun m => (Ok tt, f m).

Declare Scope js_scope.
Delimit Scope js_scope with js.
Notation "'let*' x := c 'in' k" := (bind c (fun x => k))
  (at level 10, x name, c at level 100, k at level 200) : js_scope.
Notation "c ;; k" := (bind c (fun _ => k))
  (at level 100, k at level 200, right associativity) : js_scope.
Local Open Scope js_scope.

Definition STATE_FILE : string := ".hyperinstall-state.json".
Definition CONFIG_FILE : string := "hyperinstall.json".

(** Global cache breaker to force updating all packages *)
Definition CACHE_BREAKER : value := VNum 0.

(** [fs.promise.readFile(path, 'utf8')] and [JSON.parse] *)
Definition readFile (path : string) : M file :=
  fun m => match files m !! path with
           | None => (Err ENOENT, m)
           | Some Unreadable => (Err EIO, m)
           | Some f => (Ok f, m)
           end.

Definition JSON_parse (f : file) : result value :=
  match f with Json v => Ok v | _ => Err SyntaxError end.

(** [fs.promise.writeFile(path, JSON.stringify(v, null, 2), 'utf8')] *)
Definition writeJSON (path : string) (v : value) : M unit :=
  modify (fun m => set_files (<[path := Json (jsonify v)]> (files m)) m).

(** [fs.promise.unlink(path)] *)
Definition unlink (path : string) : M unit :=
  fun m => match files m !! path with
           | None => (Err ENOENT, m)
           | Some _ => (Ok tt, set_files (delete path (files m)) m)
           end.

(** [process.chdir(dir)] *)
Definition chdir (dir : string) : M unit :=
  fun m => if dirs m dir then (Ok tt, emit (Chdir dir) (set_cwd dir m))
           else (Err ENOENT, m).

(** [promiseProps]: an object of promises becomes the object of their
    values, or the rejection of one of them. *)
Fixpoint promiseProps {A} (ps : list (string * result A)) : result (list (string * A)) :=
  match ps with
  | [] => Ok []
  | (k, r) :: ps' => together (fun a o => (k, a) :: o) r (promiseProps ps')
  end.

(** [sortBy] of lodash with the identity, on strings: ascending by [<]. *)
Definition string_le (a b : string) : Prop := String.leb a b = true.
#[global] Instance string_le_dec : RelDecision string_le.
Proof. intros a b. unfold string_le. apply _. Defined.

Definition sortBy (l : list string) : list string := merge_sort string_le l.

(** ** The methods of [class Hyperinstall] *)
Section Methods.
Context {P : Platform}.

Definition createPackageListAsync : M unit :=
  let* r := reads root in
  writeJSON (path_join r CONFIG_FILE) (VObj []).

Definition readInstallationStateAsync : M value :=
  fun m =>
    match readFile (path_join (root m) STATE_FILE) m with
    | (Err ENOENT, m') => (Ok (VObj []), m')
    | (Err e, m') => (Err e, m')
    | (Ok contents, m') => (JSON_parse contents, m')
    end.

Definition writeInstallationStateAsync (st : value) : M unit :=
  let* r := reads root in
  writeJSON (path_join r STATE_FILE) st.

Definition readPackageListAsync : M value :=
  fun m =>
    match readFile (path_join (root m) CONFIG_FILE) m with
    | (Err ENOENT, m') => (Ok (VObj []), emit WarnNoConfig m')
    | (Err e, m') => (Err e, m')
    | (Ok contents, m') => (JSON_parse contents, m')
    end.

Definition readShrinkwrapAsync (name : string) : M value :=
  fun m =>
    let shrinkwrapJSONPath :=
      path_resolve (cwd m) [root m; name; "npm-shrinkwrap.json"] in
    match readFile shrinkwrapJSONPath m with
    | (Err ENOENT, m') => (Ok VUndef, m')
    | (Err e, m') => (Err e, m')
    | (Ok contents, m') => (JSON_parse contents, m')
    end.

Definition readPackageDepsAsync (name : string) : M value :=
  let* r := reads root in
  let* d := reads cwd in
  let packageJSONPath := path_resolve d [r; name; "package.json"] in
  let* contents := readFile packageJSONPath in
  let* packageJSON := lift (JSON_parse contents) in
  match packageJSON with
  | VNull => throw TypeError
  | _ =>
      let packageDeps := assign [] (ownEntries (field packageJSON "dependencies")) in
      let packageDeps := assign packageDeps (ownEntries (field packageJSON "devDependencies")) in
      ret (VObj packageDeps)
  end.

(** The loop of [filterLocalDeps], run with the working directory [dir]
    that [npmPackageArg] resolves against. *)
Fixpoint classify (dir : string) (pairs : props) (localDeps : list (string * string))
    : result (list (string * string)) :=
  match pairs with
  | [] => Ok localDeps
  | (dep, version) :: pairs' =>
      match npmPackageArg dir (dep +:+ "@" +:+ toStr version) with
      | Err e => Err e
      | Ok descriptor =>
          if String.eqb (dtype descriptor) "local"
          then classify dir pairs' (set_prop dep (dspec descriptor) localDeps)
          else classify dir pairs' localDeps
      end
  end.

(** [toPairsIn(deps)] of lodash; [deps] is a plain object. *)
Definition toPairsIn (deps : value) : props := ownEntries deps.

Definition filterLocalDeps (name : string) (deps : value) : M (list (string * string)) :=
  fun m =>
    (* Change the working directory since npm-package-arg uses it when
       calling path.resolve *)
    let originalCwd := cwd m in
    let packagePath := path_resolve (cwd m) [root m; name] in
    match chdir packagePath m with
    | (Err e, m1) => (Err e, m1)
    | (Ok _, m1) =>
        let localDeps := classify (cwd m1) (toPairsIn deps) [] in   (* try *)
        match chdir originalCwd m1 with                              (* finally *)
        | (Err e, m2) => (Err e, m2)
        | (Ok _, m2) => (localDeps, m2)
        end
    end.

Definition readFileChecksumAsync (filePath algorithm : string) : M string :=
  let* read := reads contents in
  let* bytes := lift (read filePath) in
  ret (createHash algorithm bytes).

(** The [child] handler of [readPackageChecksumAsync], over the entries in
    the order the stream emits them. *)
Definition fileChecksumPromises (packagePath : string) (entries : list string)
    (m : Machine) : list (string * result string) :=
  fold_left
    (fun promises absoluteFilePath =>
       let relativeFilePath := path_relative (cwd m) packagePath absoluteFilePath in
       set_prop relativeFilePath
         (fst (readFileChecksumAsync absoluteFilePath "sha1" m)) promises)
    entries [].

(** The [end] handler once the file checksums are there: a stable hash of
    the hashes. *)
Definition hashOfHashes (fileChecksums : list (string * string)) : string :=
  createHash "sha1" (String.concat "" (sortBy (map snd fileChecksums))).

(** [readPackageChecksumAsync]: an [error] of the stream rejects.  A file
    that cannot be read rejects inside the [end] handler, an async function
    of its own whose promise nobody holds: neither [resolve] nor [reject]
    is called, and the checksum never settles. *)
Definition readPackageChecksumAsync (packagePath : string) : M string :=
  let* list := reads children in
  let* entries := lift (list packagePath) in
  let* promises := reads (fileChecksumPromises packagePath entries) in
  match promiseProps promises with
  | Ok fileChecksums => ret (hashOfHashes fileChecksums)
  | Err _ => throw NeverSettles
  end.

(** The loop of [readUnversionedDepChecksumsAsync]: one checksum promise
    per local dependency. *)
Fixpoint checksumPromises (packagePath : string) (pairs : list (string * string))
    (promises : list (string * result string)) (m : Machine)
    : list (string * result string) :=
  match pairs with
  | [] => promises
  | (dep, depPath) :: pairs' =>
      let absoluteDepPath := path_resolve (cwd m) [packagePath; depPath] in
      checksumPromises packagePath pairs'
        (set_prop dep (fst (readPackageChecksumAsync absoluteDepPath m)) promises) m
  end.

Definition readUnversionedDepChecksumsAsync (name : string) (deps : value) : M value :=
  let* r := reads root in
  let* d := reads cwd in
  let packagePath := path_resolve d [r; name] in
  let* unversionedDeps := filterLocalDeps name deps in
  let* promises := reads (checksumPromises packagePath unversionedDeps []) in
  let* sums := lift (promiseProps promises) in
  ret (VObj (map (fun kv => (fst kv, VStr (snd kv))) sums)).

Definition readPackageInstallationState (name : string) : M value :=
  let* deps := readPackageDepsAsync name in
  let* shrinkwrap := readShrinkwrapAsync name in
  let* unversionedDepChecksums := readUnversionedDepChecksumsAsync name deps in
  ret (VObj [("dependencies", deps);
             ("unversionedDependencyChecksums", unversionedDepChecksums);
             ("shrinkwrap", shrinkwrap)]).

(** The first test of [packageNeedsUpdate]:
    [!packageState || packageState.cacheBreaker !== cacheBreaker]. *)
Definition cacheBreakerStale (packageState cacheBreaker : value) : bool :=
  negb (truthy packageState) ||
  negb (strict_eq (field packageState "cacheBreaker") cacheBreaker).

(** [packageNeedsUpdate(name, cacheBreaker, deps, unversionedDepChecksums,
    shrinkwrap)], reading [this.state]; an argument the caller leaves out
    is [undefined].  The method is called when [this.state] is the object
    of the constructor or a state document whose [cacheBreaker] is 0. *)
Definition packageNeedsUpdate (m : Machine) (name : string)
    (cacheBreaker deps unversionedDepChecksums shrinkwrap : value) : bool :=
  let packageState := get (field (state m) "packages") name in
  if cacheBreakerStale packageState cacheBreaker then true
  else
    let installedShrinkwrap := field packageState "shrinkwrap" in
    if truthy shrinkwrap && isEqual shrinkwrap installedShrinkwrap then true
    else
      let installedDeps := field packageState "dependencies" in
      if negb (isEqual deps installedDeps) then true
      else
        let installedUnversionedDepChecksums :=
          field packageState "unversionedDependencyChecksums" in
        negb (isEqual unversionedDepChecksums installedUnversionedDepChecksums).

(** [execNpmInstallAsync(packagePath)], imported from [./npm].  The module
    of the repository that runs the install command exports it as
    [execYarnInstallAsync]; its body is
    [execAsync('npm', ['install'], { cwd: packagePath, stdio: 'inherit' })],
    which is what is embedded.  [execAsync] is not among the sources: the
    command is taken to terminate, and the promise to reject when it exits
    non-zero. *)
Definition execNpmInstallAsync (packagePath : string) : M unit :=
  fun m =>
    let ok := npmExit m packagePath in
    (if ok then Ok tt else Err InstallFailed, emit (Exec packagePath ok) m).

(** The third argument of [updatePackageAsync]: the installation state
    itself, or the promise of it when the caller did not await it.  A
    promise has no own enumerable property. *)
Inductive installationStateArg : Type :=
| Awaited (packageInstallationState : value)
| NotAwaited.

Definition spread (a : installationStateArg) : props :=
  match a with
  | Awaited v => assign [] (ownEntries v)
  | NotAwaited => []
  end.

(** [updatePackageAsync]; the lock around the install is the subject of the
    transition system below, here the installs of one run happen one after
    the other. *)
Definition updatePackageAsync (name : string) (cacheBreaker : value)
    (packageInstallationState : installationStateArg) : M unit :=
  let* r := reads root in
  let* d := reads cwd in
  let packagePath := path_resolve d [r; name] in
  modify (emit (LogInstalling name)) ;;
  execNpmInstallAsync packagePath ;;
  modify (emit (LogFinished name)) ;;
  modify (fun m =>
    set_updatedPackages
      (set_prop name
         (VObj (set_prop "cacheBreaker" cacheBreaker (spread packageInstallationState)))
         (updatedPackages m)) m).

Definition removeNodeModulesDirAsync (name : string) : M unit :=
  let* r := reads root in
  let* d := reads cwd in
  let nodeModulesPath := path_resolve d [r; name; "node_modules"] in
  modify (emit (Rimraf nodeModulesPath)) ;;
  modify (emit (LogRemoved name)).

Definition updatePackageIfNeededAsync (name : string) (cacheBreaker : value) : M unit :=
  let* packageInstallationState := readPackageInstallationState name in
  let* force := reads forceInstallation in
  if force then
    removeNodeModulesDirAsync name ;;
    updatePackageAsync name cacheBreaker (Awaited packageInstallationState)
  else
    let* needed := reads (fun m =>
      packageNeedsUpdate m name cacheBreaker packageInstallationState VUndef VUndef) in
    if needed
    then updatePackageAsync name cacheBreaker (Awaited packageInstallationState)
    else ret tt.

End Methods.

(** ** The orchestrator *)

(** [Promise.all] over tasks that share the machine.  Every task runs to
    its end, one after the other in the order of the list, whatever the
    others do; the result is the first rejection, if any. *)
Fixpoint promiseAll (tasks : list (M unit)) : M unit :=
  match tasks with
  | [] => ret tt
  | t :: tasks' =>
      fun m =>
        let '(r, m1) := t m in
        let '(r', m2) := promiseAll tasks' m1 in
        (together (fun _ _ => tt) r r', m2)
  end.

Definition promiseAll2 {A B} (a : M A) (b : M B) : M (A * B) :=
  fun m =>
    let '(ra, m1) := a m in
    let '(rb, m2) := b m1 in
    (together pair ra rb, m2).

(** A promise nobody awaits: it runs, and its outcome is dropped. *)
Definition notAwaited {A} (c : M A) : M installationStateArg :=
  fun m => (Ok NotAwaited, snd (c m)).

(** [isLength] of lodash, on which [map] decides that a collection is
    array-like. *)
Definition isLength (v : value) : bool :=
  match v with
  | VNum n => (0 <=? n)%Z && (n <=? 9007199254740991)%Z
  | _ => false
  end.

(** The (name, cacheBreaker) pairs that [map(packages, callback)] of lodash
    runs the callback on.  [None]: the collection is an array, a string or
    array-like and not empty, so the callback gets an index for a name, a
    number, which [path.resolve] refuses. *)
Definition mapPackages (packages : value) : option props :=
  match packages with
  | VObj o =>
      if isLength (field packages "length")
      then (if strict_eq (field packages "length") (VNum 0) then Some [] else None)
      else Some o
  | VArr [] => Some []
  | VArr _ => None
  | VStr s => if String.eqb s "" then Some [] else None
  | _ => Some []
  end.

(** [packages.hasOwnProperty(name)]: [packages] may be [null], and an own
    property [hasOwnProperty] of a parsed document is no function. *)
Definition hasOwnProperty (packages : value) (name : string) : result bool :=
  match packages with
  | VUndef | VNull => Err TypeError
  | VObj o =>
      if hasOwn "hasOwnProperty" o then Err TypeError else Ok (hasOwn name o)
  | VArr xs => Ok (String.eqb name "length" || hasOwn name (index_entries xs))
  | VStr s => Ok (String.eqb name "length" || hasOwn name (index_entries (chars s)))
  | VBool _ | VNum _ => Ok false
  end.

(** The loop over [Object.keys(state.packages)]. *)
Fixpoint prune (packages : value) (names : list string) (statePackages : props)
    : result props :=
  match names with
  | [] => Ok statePackages
  | name :: names' =>
      match hasOwnProperty packages name with
      | Err e => Err e
      | Ok true => prune packages names' statePackages
      | Ok false => prune packages names' (delete_prop name statePackages)
      end
  end.

Section Orchestrator.
Context {P : Platform}.

(** The two branches of [installAsync], one task per declared package. *)
Definition resetTask (name : string) (cacheBreaker : value) : M unit :=
  let* packageInstallationState := notAwaited (readPackageInstallationState name) in
  updatePackageAsync name cacheBreaker packageInstallationState.

Definition packageTasks (st packages : value) : list (M unit) :=
  match mapPackages packages with
  | None => [throw TypeError]
  | Some entries =>
      if negb (strict_eq (field st "cacheBreaker") CACHE_BREAKER)
      then map (fun kv => resetTask (fst kv) (snd kv)) entries
      else map (fun kv => updatePackageIfNeededAsync (fst kv) (snd kv)) entries
  end.

(** The state as the end of [installAsync] leaves it: the assignments to
    [state.cacheBreaker] and [state.packages] and the pruning loop.  The
    module is strict code: assigning a property of a boolean, number or
    string throws.  Properties assigned to an array are set, and
    [JSON.stringify] leaves them out. *)
Definition updateInstallationState (st packages : value) (updated : props)
    : result value :=
  match st with
  | VObj _ | VArr _ =>
      let merged := assign (assign [] (ownEntries (field st "packages"))) updated in
      match prune packages (keys merged) merged with
      | Err e => Err e
      | Ok pruned =>
          match st with
          | VObj o =>
              Ok (VObj (set_prop "packages" (VObj pruned)
                          (set_prop "cacheBreaker" CACHE_BREAKER o)))
          | _ => Ok st
          end
      end
  | _ => Err TypeError
  end.

Definition installAsync : M unit :=
  let* loaded := promiseAll2 readInstallationStateAsync readPackageListAsync in
  let st := fst loaded in
  let packages := snd loaded in
  modify (set_state st) ;;
  match st with
  | VNull => throw TypeError
  | _ =>
      promiseAll (packageTasks st packages) ;;
      let* updated := reads updatedPackages in
      (if negb (isEmpty updated)
       then modify (emit (LogUpdated (keys updated)))
       else ret tt) ;;
      (* Update the installation state *)
      let* st' := lift (updateInstallationState st packages updated) in
      modify (set_state st') ;;
      writeInstallationStateAsync st'
  end.

Definition cleanAsync : M unit :=
  let* r := reads root in
  let stateFilename := path_join r STATE_FILE in
  unlink stateFilename.

End Orchestrator.

(** ** The install lock

    [this.installLock] is an [AwaitLock] of the package await-lock: a flag
    and a queue of the resolvers of pending [acquireAsync] promises.  A
    resolver is named by the task that waits on it. *)
Record AwaitLock : Type := mkLock {
  acquired : bool;
  waitingResolvers : list nat;
}.

Definition AwaitLock_new : AwaitLock := mkLock false [].

(** [acquireAsync()] called by task [i]: the lock, and whether the promise
    it returns is already resolved. *)
Definition acquireAsync (i : nat) (l : AwaitLock) : AwaitLock * bool :=
  if acquired l
  then (mkLock true (waitingResolvers l ++ [i]), false)
  else (mkLock true (waitingResolvers l), true).

(** [release()]: the lock, and the task whose resolver was called, if any.
    The lock stays acquired when it is handed over. *)
Definition release (l : AwaitLock) : AwaitLock * option nat :=
  match waitingResolvers l with
  | i :: rest => (mkLock (acquired l) rest, Some i)
  | [] => (mkLock false [], None)
  end.

(** Where the task of one package stands; the points are the suspension
    points of [updatePackageIfNeededAsync] and [updatePackageAsync]. *)
Inductive pc : Type :=
| Detecting              (* before [installLock.acquireAsync()] is called *)
| Skipped                (* no install: not flagged, or the fingerprint failed *)
| Waiting                (* awaiting a pending [acquireAsync()] *)
| Locked                 (* [acquireAsync()] resolved, install not yet started *)
| Installing             (* inside [execNpmInstallAsync]: the subprocess runs *)
| Settled (ok : bool)    (* the install resolved or rejected; [finally] is next *)
| Released (ok : bool).  (* after [installLock.release()] *)

(** Between the grant of the lock and its release. *)
Definition holds (p : pc) : bool :=
  match p with
  | Locked | Installing | Settled _ => true
  | _ => false
  end.

Record Run : Type := mkRun {
  installLock : AwaitLock;
  tasks : list pc;
}.

Definition initial (n : nat) : Run := mkRun AwaitLock_new (replicate n Detecting).

Definition wake (woken : option nat) (ts : list pc) : list pc :=
  match woken with
  | Some j => <[j := Locked]> ts
  | None => ts
  end.

(** One task moves from one suspension point to the next; the scheduler
    picks any task that can move. *)
Inductive step : Run -> Run -> Prop :=
| step_skip r i :
    tasks r !! i = Some Detecting ->
    step r (mkRun (installLock r) (<[i := Skipped]> (tasks r)))
| step_acquire r i :
    tasks r !! i = Some Detecting ->
    step r (mkRun (fst (acquireAsync i (installLock r)))
              (<[i := if snd (acquireAsync i (installLock r)) then Locked else Waiting]>
                 (tasks r)))
| step_exec r i :
    tasks r !! i = Some Locked ->
    step r (mkRun (installLock r) (<[i := Installing]> (tasks r)))
| step_settle r i ok :
    tasks r !! i = Some Installing ->
    step r (mkRun (installLock r) (<[i := Settled ok]> (tasks r)))
| step_release r i ok :
    tasks r !! i = Some (Settled ok) ->
    step r (mkRun (fst (release (installLock r)))
              (wake (snd (release (installLock r))) (<[i := Released ok]> (tasks r)))).

Definition reachable (n : nat) (r : Run) : Prop := rtc step (initial n) r.

(** Task [i] is between the grant of the lock and its release. *)
Definition holding (ts : list pc) (i : nat) : Prop :=
  exists p, ts !! i = Some p /\ holds p = true.

(** What relates the flag and the queue of the lock to the tasks. *)
Record lock_inv (r : Run) : Prop := mkLockInv {
  inv_unique : forall i j, holding (tasks r) i -> holding (tasks r) j -> i = j;
  inv_free : acquired (installLock r) = false ->
             (forall i, ~ holding (tasks r) i) /\ waitingResolvers (installLock r) = [];
  inv_held : acquired (installLock r) = true -> exists i, holding (tasks r) i;
  inv_waiting : forall j, j ∈ waitingResolvers (installLock r) ->
                tasks r !! j = Some Waiting;
  inv_nodup : NoDup (waitingResolvers (installLock r));
}.

(** Two packages: the first has the lock and its install runs, the second
    waits for the lock. *)
Definition twoTasks : Run := mkRun (mkLock true [1]) [Installing; Waiting].

(** ** A small platform and workspace to run the methods on

    Stand-ins for the collaborators, simple enough to evaluate: paths are
    joined with a slash, the digest of some bytes is the bytes behind the
    algorithm's name, a dependency is local when its specifier starts with
    a dot, and a deep property path is split at its dots. *)
Fixpoint splitAt (sep : ascii) (s : string) : string * option string :=
  match s with
  | EmptyString => (EmptyString, None)
  | String c s' =>
      if Ascii.eqb c sep then (EmptyString, Some s')
      else let '(a, b) := splitAt sep s' in (String c a, b)
  end.

Fixpoint splitDots (fuel : nat) (s : string) : list string :=
  match fuel with
  | O => [s]
  | S fuel' =>
      match splitAt "." s with
      | (a, None) => [a]
      | (a, Some b) => a :: splitDots fuel' b
      end
  end.

Definition demoPackageArg (dir arg : string) : result descriptor :=
  match arg with
  | EmptyString => Err InvalidArg
  | String _ rest =>          (* the name may start with the @ of a scope *)
      match splitAt "@" rest with
      | (_, None) => Err InvalidArg
      | (_, Some spec) =>
          match spec with
          | String "." _ => Ok {| dtype := "local"; dspec := dir +:+ "/" +:+ spec |}
          | _ => Ok {| dtype := "range"; dspec := spec |}
          end
      end
  end.

Fixpoint stripPrefix (prefix s : string) : option string :=
  match prefix, s with
  | EmptyString, _ => Some s
  | String a prefix', String b s' =>
      if Ascii.eqb a b then stripPrefix prefix' s' else None
  | String _ _, EmptyString => None
  end.

Definition demoPlatform : Platform := {|
  isDeepProp s := match splitAt "." s with (_, Some _) => true | _ => false end;
  stringToPath s := splitDots (String.length s) s;
  createHash algorithm bytes := algorithm +:+ ":" +:+ bytes;
  path_join a b := a +:+ "/" +:+ b;
  path_resolve d parts := String.concat "/" parts;
  path_relative d from to := default to (stripPrefix (from +:+ "/") to);
  npmPackageArg := demoPackageArg;
|}.

(** Scenario A of the specification's test list: the config declares
    [pkgA] and [pkgB] with token 1, there is no state file, each package
    has a manifest and no lockfile, and every install succeeds. *)
Definition manifestA : value :=
  VObj [("name", VStr "pkgA"); ("dependencies", VObj [("lodash", VStr "^4.0.0")])].
Definition manifestB : value :=
  VObj [("name", VStr "pkgB"); ("devDependencies", VObj [("mocha", VStr "^2.0.0")])].

Definition scenarioFiles : gmap string file :=
  <["/ws/hyperinstall.json" := Json (VObj [("pkgA", VNum 1); ("pkgB", VNum 1)])]>
  (<["/ws/pkgA/package.json" := Json manifestA]>
  (<["/ws/pkgB/package.json" := Json manifestB]> ∅)).

Definition scenarioA : Machine :=
  Hyperinstall_new "/ws" "/ws" scenarioFiles (fun _ => true)
    (fun _ => Ok []) (fun _ => Err ENOENT) (fun _ => true).

(** The next process: a new instance over the files the last one left. *)
Definition nextProcess (m : Machine) : Machine :=
  Hyperinstall_new (root m) (cwd m) (files m) (dirs m) (children m) (contents m)
    (npmExit m).

(** Scenario C: the state file of an earlier run records [pkgA] and
    [pkgB], and the config now declares [pkgA] alone. *)
Definition configC : value := VObj [("pkgA", VNum 1)].

Definition scenarioC : Machine :=
  Hyperinstall_new "/ws" "/ws"
    (<["/ws/hyperinstall.json" := Json configC]>
     (<["/ws/.hyperinstall-state.json" :=
          Json (VObj [("cacheBreaker", VNum 0);
                      ("packages",
                       VObj [("pkgA", VObj [("cacheBreaker", VNum 1)]);
                             ("pkgB", VObj [("cacheBreaker", VNum 1)])])])]>
        scenarioFiles))
    (fun _ => true) (fun _ => Ok []) (fun _ => Err ENOENT) (fun _ => true).

(** A local dependency [/ws/lib] with two files, listed in a given order
    and read by a given function. *)
Definition libContents (filePath : string) : result string :=
  if String.eqb filePath "/ws/lib/a.js" then Ok "alpha"
  else if String.eqb filePath "/ws/lib/b.js" then Ok "beta"
  else Err ENOENT.

(** The same directory after [a.js] was renamed to [c.js]. *)
Definition libRenamed (filePath : string) : result string :=
  if String.eqb filePath "/ws/lib/c.js" then Ok "alpha"
  else if String.eqb filePath "/ws/lib/b.js" then Ok "beta"
  else Err ENOENT.

(** The same directory after [a.js] and [b.js] exchanged their contents. *)
Definition libExchanged (filePath : string) : result string :=
  if String.eqb filePath "/ws/lib/a.js" then Ok "beta"
  else if String.eqb filePath "/ws/lib/b.js" then Ok "alpha"
  else Err ENOENT.

Definition withListing (entries : list string) (read : string -> result string)
    : Machine :=
  Hyperinstall_new "/ws" "/ws" scenarioFiles (fun _ => true)
    (fun d => if String.eqb d "/ws/lib" then Ok entries else Err ENOENT)
    read (fun _ => true).

(** Dependencies of [pkgA] with one sibling linked by a relative path. *)
Definition depsWithSibling : value :=
  VObj [("lodash", VStr "^4.0.0"); ("sibling", VStr "../pkgB")].

(** An instance whose [state] is the given document, as [installAsync]
    sets it after reading the state file. *)
Definition withState (st : value) : Machine := set_state st scenarioA.

(** A state document that records a fingerprint of [pkgA]: token,
    dependencies, checksums and lockfile, as the state file holds them
    (without the lockfile when there is none). *)
Definition recorded (cacheBreaker deps sums shrinkwrap : value) : value :=
  jsonify
    (VObj [("cacheBreaker", VNum 0);
           ("packages",
            VObj [("pkgA",
                   VObj [("dependencies", deps);
                         ("unversionedDependencyChecksums", sums);
                         ("shrinkwrap", shrinkwrap);
                         ("cacheBreaker", cacheBreaker)])])]).

Definition depsA : value := VObj [("lodash", VStr "^4.0.0")].
Definition lockA : value :=
  VObj [("name", VStr "pkgA");
        ("dependencies", VObj [("lodash", VObj [("version", VStr "4.17.4")])])].

(** A later run of Scenario A, as the next process finds it: the state
    records [pkgA] with its token and the dependencies of its manifest. *)
Definition scenarioLater : Machine :=
  withState (recorded (VNum 1) depsA (VObj []) VUndef).

(** The directory [/ws/lib] with a subdirectory among its children:
    reading it as a file fails. *)
Definition libWithDirectory (filePath : string) : result string :=
  if String.eqb filePath "/ws/lib/src" then Err EIO else libContents filePath.

(** ** Measures and predicates used in the statements *)

(** The number of constructors of a value. *)
Fixpoint vsize (v : value) : nat :=
  match v with
  | VArr xs => S ((fix elems (xs : list value) : nat :=
                     match xs with [] => 0 | x :: xs' => vsize x + elems xs' end) xs)
  | VObj o => S ((fix entries (o : props) : nat :=
                    match o with [] => 0 | (_, v) :: o' => vsize v + entries o' end) o)
  | _ => 1
  end.

(** The entries of an object once it has been through the state file. *)
Definition jsonify_entries (o : props) : props :=
  match jsonify (VObj o) with VObj o' => o' | _ => [] end.

(** The hex digest of a file, the empty string if it cannot be read. *)
Definition hexOf {P : Platform} (m : Machine) (filePath : string) : string :=
  match contents m filePath with
  | Ok bytes => createHash "sha1" bytes
  | Err _ => ""
  end.

(** What no method changes: the root, the force flag, and the directories,
    listings, file contents and install outcomes of the world around. *)
Definition setting (m : Machine) :=
  (root m, forceInstallation m, dirs m, children m, contents m, npmExit m).

Definition keeps_setting {A} (c : M A) : Prop :=
  forall m, setting (snd (c m)) = setting m.

(** A token that is neither an array nor an object. *)
Definition isScalar (v : value) : bool :=
  match v with
  | VArr _ | VObj _ => false
  | _ => true
  end.

(** The installation state of a package as [readPackageInstallationState]
    builds it. *)
Definition installationState (deps unversionedDepChecksums shrinkwrap : value) : value :=
  VObj [("dependencies", deps);
        ("unversionedDependencyChecksums", unversionedDepChecksums);
        ("shrinkwrap", shrinkwrap)].

(** The installs of a trace. *)
Definition installs (t : list event) : list string :=
  omap (fun e => match e with Exec p _ => Some p | _ => None end) t.

(** ** Further predicates, for the properties beyond the change detector *)

(** A method that leaves one aspect of the machine as it was. *)
Definition preserves {A B} (f : Machine -> B) (c : M A) : Prop :=
  forall m, f (snd (c m)) = f m.

(** A trace without its [chdir] calls. *)
Definition withoutChdir (t : list event) : list event :=
  List.filter (fun e => match e with Chdir _ => false | _ => true end) t.

(** Everything but the [chdir] calls in the trace. *)
Definition surroundings (m : Machine) :=
  (setting m, cwd m, files m, state m, updatedPackages m, withoutChdir (trace m)).

(** The files, and the root under which the state file lies. *)
Definition stored (m : Machine) := (files m, root m).

(** A method that writes the state file when it succeeds and no file at
    all when it fails. *)
Definition state_file_only {P : Platform} (c : M unit) : Prop :=
  forall m,
    match fst (c m) with
    | Ok _ => exists st,
        files (snd (c m)) = <[path_join (root m) STATE_FILE := Json st]> (files m)
    | Err _ => files (snd (c m)) = files m
    end.

(** A method that, started in a working directory that exists, changes
    nothing of the surroundings. *)
Definition quiet {A} (c : M A) : Prop :=
  forall m, dirs m (cwd m) = true -> surroundings (snd (c m)) = surroundings m.

(** A document in which every object has each key once, as [JSON.parse]
    yields them. *)
Fixpoint wellFormed (v : value) : bool :=
  match v with
  | VArr xs => forallb wellFormed xs
  | VObj o =>
      bool_decide (NoDup (keys o)) && forallb (fun kv => wellFormed (snd kv)) o
  | _ => true
  end.

(** A task that has nothing left to do. *)
Definition finished (p : pc) : bool :=
  match p with
  | Skipped | Released _ => true
  | _ => false
  end.

(** Every task that awaits the lock has its resolver in the queue. *)
Definition queue_inv (r : Run) : Prop :=
  forall j, tasks r !! j = Some Waiting -> j ∈ waitingResolvers (installLock r).

(** The moves a task has left at most, and those of a run. *)
Definition rank (p : pc) : nat :=
  match p with
  | Detecting => 5
  | Waiting => 4
  | Locked => 3
  | Installing => 2
  | Settled _ => 1
  | Skipped | Released _ => 0
  end.

Definition remaining (r : Run) : nat := sum_list_with rank (tasks r).

(** The directory in which the install of a declared package runs. *)
Definition packagePathOf {P : Platform} (m : Machine) (kv : string * value) : string :=
  path_resolve (cwd m) [root m; fst kv].

(** A dependency that [npmPackageArg], resolving from [dir], reports as
    local, with the path [spec]. *)
Definition isLocal {P : Platform} (dir dep : string) (version : value)
    (spec : string) : Prop :=
  exists d, npmPackageArg dir (dep +:+ "@" +:+ toStr version) = Ok d /\
            dtype d = "local" /\ dspec d = spec.

(** A manifest of [pkgA] whose two dependency fields both name [lodash]. *)
Definition manifestBoth : value :=
  VObj [("dependencies", VObj [("lodash", VStr "^3.0.0"); ("left-pad", VStr "1.0.0")]);
        ("devDependencies", VObj [("lodash", VStr "^4.0.0"); ("mocha", VStr "^2.0.0")])].

Definition scenarioBoth : Machine :=
  set_files (<["/ws/pkgA/package.json" := Json manifestBoth]> scenarioFiles) scenarioA.

(** Scenario A with the force flag set, after a run has recorded [pkgA]. *)
Definition scenarioForced : Machine :=
  mkMachine (root scenarioLater) true (state scenarioLater)
    (updatedPackages scenarioLater) (cwd scenarioLater) (trace scenarioLater)
    (files scenarioLater) (dirs scenarioLater) (children scenarioLater)
    (contents scenarioLater) (npmExit scenarioLater).

(** Scenario A where the install of [pkgB] exits non-zero. *)
Definition scenarioFailing : Machine :=
  Hyperinstall_new "/ws" "/ws" scenarioFiles (fun _ => true)
    (fun _ => Ok []) (fun _ => Err ENOENT)
    (fun p => negb (String.eqb p "/ws/pkgB")).

(** A root with a state file and a config that declares nothing. *)
Definition scenarioEmpty : Machine :=
  Hyperinstall_new "/ws" "/ws"
    (<["/ws/hyperinstall.json" := Json (VObj [])]>
     (<["/ws/.hyperinstall-state.json" :=
          Json (recorded (VNum 1) depsA (VObj []) VUndef)]> ∅))
    (fun _ => true) (fun _ => Ok []) (fun _ => Err ENOENT) (fun _ => true).

(** Three packages: the first has been released after a failed install, the
    second holds the lock, the third waits. *)
Definition threeTasks : Run :=
  mkRun (mkLock true [2]) [Released false; Locked; Waiting].


(** Scenario A with a state file that holds the number 0. *)
Definition scenarioNumberState : Machine :=
  set_files (<["/ws/.hyperinstall-state.json" := Json (VNum 0)]> scenarioFiles) scenarioA.

(** Scenario A with a config that is no JSON. *)
Definition scenarioMalformedConfig : Machine :=
  set_files (<["/ws/hyperinstall.json" := Malformed]> scenarioFiles) scenarioA.
(* ===================================================================== *)
(** * Part II: theorems                                                   *)
(* ===================================================================== *)

(** ** Own properties *)
Section PropsFacts.
Context {A : Type}.
Implicit Types (o : list (string * A)) (k : string).

Lemma lookup_prop_In k o v : lookup_prop k o = Some v -> In (k, v) o.
Proof.
  induction o as [|[k' v'] o IH]; simpl; [discriminate|].
  destruct (String.eqb_spec k k') as [->|Hne].
  - intros [= ->]. by left.
  - intros H. right. by apply IH.
Qed.

Lemma hasOwn_keys k o : hasOwn k o = true <-> In k (keys o).
Proof.
  unfold hasOwn, keys. induction o as [|[k' v'] o IH]; simpl.
  - split; [discriminate|tauto].
  - destruct (String.eqb_spec k k') as [->|Hne]; [tauto|].
    rewrite IH. split; [tauto|]. intros [?|?]; [congruence|done].
Qed.

Lemma lookup_set_prop_eq k v o : lookup_prop k (set_prop k v o) = Some v.
Proof.
  induction o as [|[k' v'] o IH]; simpl.
  - by rewrite String.eqb_refl.
  - destruct (String.eqb_spec k k') as [->|Hne]; simpl.
    + by rewrite String.eqb_refl.
    + destruct (String.eqb_spec k k'); [done|]. apply IH.
Qed.

Lemma lookup_set_prop_ne k k' v o :
  k <> k' -> lookup_prop k (set_prop k' v o) = lookup_prop k o.
Proof.
  intros Hne. induction o as [|[k1 v1] o IH]; simpl.
  - destruct (String.eqb_spec k k'); [done|reflexivity].
  - destruct (String.eqb_spec k' k1) as [->|Hne1]; simpl.
    + destruct (String.eqb_spec k k1); [done|reflexivity].
    + destruct (String.eqb_spec k k1); [reflexivity|apply IH].
Qed.

Lemma keys_delete_prop k k' o :
  In k (keys (delete_prop k' o)) <-> In k (keys o) /\ k <> k'.
Proof.
  unfold keys. induction o as [|[k1 v1] o IH]; simpl; [tauto|].
  destruct (String.eqb_spec k' k1) as [->|Hne]; simpl; rewrite IH.
  - split; [tauto|]. intros [[?|?] ?]; [congruence|tauto].
  - split; [|tauto]. intros [?|[? ?]]; [|tauto]. split; [tauto|congruence].
Qed.

End PropsFacts.

(** ** Structural equality *)

Lemma isEqual_obj_entries o p :
  isEqual (VObj o) (VObj p) = true ->
  forall k v, In (k, v) o ->
  exists w, lookup_prop k p = Some w /\ isEqual v w = true.
Proof.
  simpl. intros [_ H]%andb_prop. revert H.
  induction o as [|[k1 v1] o IH]; intros H k v []; simplify_eq.
  - apply andb_prop in H as [H _].
    destruct (lookup_prop k p) as [w|]; [eauto|discriminate].
  - apply andb_prop in H as [_ H]. eauto.
Qed.

Lemma vsize_entry k v (o : props) : In (k, v) o -> vsize v < vsize (VObj o).
Proof.
  simpl. induction o as [|[k1 v1] o IH]; intros []; simplify_eq; [lia|].
  specialize (IH ltac:(done)). lia.
Qed.

(** No object is structurally equal to the value of its own
    [dependencies] property: equality would descend forever. *)
Lemma isEqual_own_dependencies (o : props) :
  isEqual (VObj o) (field (VObj o) "dependencies") = false.
Proof.
  remember (vsize (VObj o)) as n eqn:Hn.
  revert o Hn. induction (lt_wf n) as [n _ IH]. intros o ->.
  destruct (isEqual (VObj o) (field (VObj o) "dependencies")) eqn:He; [|done].
  exfalso. unfold field in He.
  destruct (lookup_prop "dependencies" o) as [y|] eqn:Hy; [|discriminate].
  destruct y as [| | | | | |p]; try discriminate.
  apply lookup_prop_In in Hy.
  destruct (isEqual_obj_entries _ _ He _ _ Hy) as (w & Hw & Hew).
  specialize (IH (vsize (VObj p)) (vsize_entry _ _ _ Hy) p eq_refl).
  unfold field in IH. rewrite Hw in IH.
  change (isEqual (VObj p) w = false) in IH. congruence.
Qed.

Lemma strict_eq_scalar a b : isScalar b = true -> strict_eq a b = isEqual a b.
Proof. by destruct a, b. Qed.

Lemma strict_eq_composite a b : isScalar b = false -> strict_eq a b = false.
Proof. by destruct a, b. Qed.

(** ** Outcomes *)

Lemma bind_Ok {A B} (c : M A) (k : A -> M B) (m m' : Machine) (b : B) :
  bind c k m = (Ok b, m') ->
  exists a m1, c m = (Ok a, m1) /\ k a m1 = (Ok b, m').
Proof. unfold bind. destruct (c m) as [[a|e] m1]; [eauto|discriminate]. Qed.

Lemma together_Ok {A B C} (f : A -> B -> C) (r : result A) (r' : result B) (c : C) :
  together f r r' = Ok c -> exists a b, r = Ok a /\ r' = Ok b /\ c = f a b.
Proof. destruct r as [a|[]], r' as [b|e]; simpl; intros [=]; eauto. Qed.

(** ** What a run leaves untouched *)

Create HintDb keeps discriminated.

Lemma keeps_ret {A} (a : A) : keeps_setting (ret a).
Proof. by intros m. Qed.

Lemma keeps_throw {A} (e : error) : keeps_setting (@throw A e).
Proof. by intros m. Qed.

Lemma keeps_lift {A} (r : result A) : keeps_setting (lift r).
Proof. by intros m. Qed.

Lemma keeps_reads {A} (f : Machine -> A) : keeps_setting (reads f).
Proof. by intros m. Qed.

Lemma keeps_modify (f : Machine -> Machine) :
  (forall m, setting (f m) = setting m) -> keeps_setting (modify f).
Proof. intros Hf m. apply Hf. Qed.

Lemma keeps_bind {A B} (c : M A) (k : A -> M B) :
  keeps_setting c -> (forall a, keeps_setting (k a)) -> keeps_setting (bind c k).
Proof.
  intros Hc Hk m. unfold bind. specialize (Hc m).
  destruct (c m) as [[a|e] m1]; simpl in *; [|done].
  by rewrite (Hk a m1).
Qed.

#[global] Hint Resolve keeps_ret keeps_throw keeps_lift keeps_reads : keeps.

(** Goes through a method written with [bind]: each step is one of the
    combinators above, a branch on a value, or a method already known. *)
Ltac keeps :=
  repeat first
    [ apply keeps_bind; [|intros ?]
    | apply keeps_modify; intros ?; reflexivity
    | solve [eauto with keeps]
    | match goal with
      | |- keeps_setting (match ?x with _ => _ end) => destruct x
      end ].

Lemma keeps_readFile path : keeps_setting (readFile path).
Proof. intros m. unfold readFile. by destruct (files m !! path) as [[]|]. Qed.

Lemma keeps_writeJSON path v : keeps_setting (writeJSON path v).
Proof. unfold writeJSON. keeps. Qed.

Lemma keeps_unlink path : keeps_setting (unlink path).
Proof. intros m. unfold unlink. by destruct (files m !! path). Qed.

Lemma keeps_chdir dir : keeps_setting (chdir dir).
Proof. intros m. unfold chdir. by destruct (dirs m dir). Qed.

#[global] Hint Resolve keeps_readFile keeps_writeJSON keeps_unlink keeps_chdir : keeps.

Section Keeps.
Context {P : Platform}.

Lemma keeps_readInstallationStateAsync : keeps_setting readInstallationStateAsync.
Proof.
  intros m. unfold readInstallationStateAsync.
  pose proof (keeps_readFile (path_join (root m) STATE_FILE) m) as H.
  by destruct (readFile _ m) as [[?|[]] ?].
Qed.

Lemma keeps_readPackageListAsync : keeps_setting readPackageListAsync.
Proof.
  intros m. unfold readPackageListAsync.
  pose proof (keeps_readFile (path_join (root m) CONFIG_FILE) m) as H.
  by destruct (readFile _ m) as [[?|[]] ?].
Qed.

Lemma keeps_readShrinkwrapAsync name : keeps_setting (readShrinkwrapAsync name).
Proof.
  intros m. unfold readShrinkwrapAsync.
  pose proof (keeps_readFile
                (path_resolve (cwd m) [root m; name; "npm-shrinkwrap.json"]) m) as H.
  by destruct (readFile _ m) as [[?|[]] ?].
Qed.

Lemma keeps_readPackageDepsAsync name : keeps_setting (readPackageDepsAsync name).
Proof. unfold readPackageDepsAsync. keeps. Qed.

Lemma keeps_filterLocalDeps name deps : keeps_setting (filterLocalDeps name deps).
Proof.
  intros m. unfold filterLocalDeps, chdir.
  destruct (dirs m _); [|done]. simpl. by destruct (dirs m (cwd m)).
Qed.

Lemma keeps_readPackageChecksumAsync packagePath :
  keeps_setting (readPackageChecksumAsync packagePath).
Proof. unfold readPackageChecksumAsync. keeps. Qed.

#[local] Hint Resolve keeps_readShrinkwrapAsync keeps_readPackageDepsAsync
  keeps_filterLocalDeps keeps_readPackageChecksumAsync : keeps.

Lemma keeps_readUnversionedDepChecksumsAsync name deps :
  keeps_setting (readUnversionedDepChecksumsAsync name deps).
Proof. unfold readUnversionedDepChecksumsAsync. keeps. Qed.

#[local] Hint Resolve keeps_readUnversionedDepChecksumsAsync : keeps.

Lemma keeps_readPackageInstallationState name :
  keeps_setting (readPackageInstallationState name).
Proof. unfold readPackageInstallationState. keeps. Qed.

Lemma keeps_execNpmInstallAsync packagePath :
  keeps_setting (execNpmInstallAsync packagePath).
Proof. by intros m. Qed.

#[local] Hint Resolve keeps_readPackageInstallationState keeps_execNpmInstallAsync : keeps.

Lemma keeps_updatePackageAsync name cacheBreaker arg :
  keeps_setting (updatePackageAsync name cacheBreaker arg).
Proof. unfold updatePackageAsync. keeps. Qed.

Lemma keeps_removeNodeModulesDirAsync name :
  keeps_setting (removeNodeModulesDirAsync name).
Proof. unfold removeNodeModulesDirAsync. keeps. Qed.

#[local] Hint Resolve keeps_updatePackageAsync keeps_removeNodeModulesDirAsync : keeps.

Lemma keeps_updatePackageIfNeededAsync name cacheBreaker :
  keeps_setting (updatePackageIfNeededAsync name cacheBreaker).
Proof. unfold updatePackageIfNeededAsync. keeps. Qed.

Lemma keeps_resetTask name cacheBreaker : keeps_setting (resetTask name cacheBreaker).
Proof.
  unfold resetTask. apply keeps_bind; [|intros ?; apply keeps_updatePackageAsync].
  intros m. apply keeps_readPackageInstallationState.
Qed.

Lemma keeps_promiseAll (tasks : list (M unit)) :
  Forall keeps_setting tasks -> keeps_setting (promiseAll tasks).
Proof.
  induction 1 as [|t tasks Ht _ IH]; [by intros m|]. intros m. simpl.
  specialize (Ht m). destruct (t m) as [r m1].
  specialize (IH m1). destruct (promiseAll tasks m1) as [r' m2].
  simpl in *. congruence.
Qed.

Lemma keeps_packageTasks st packages : Forall keeps_setting (packageTasks st packages).
Proof.
  unfold packageTasks. destruct (mapPackages packages) as [entries|].
  - destruct (negb _); apply Forall_forall; intros t (kv & -> & _)%list_elem_of_fmap.
    + apply keeps_resetTask.
    + apply keeps_updatePackageIfNeededAsync.
  - constructor; [apply keeps_throw|constructor].
Qed.

Lemma keeps_installAsync : keeps_setting installAsync.
Proof.
  unfold installAsync. apply keeps_bind.
  - intros m. unfold promiseAll2.
    pose proof (keeps_readInstallationStateAsync m) as H1.
    destruct (readInstallationStateAsync m) as [ra m1].
    pose proof (keeps_readPackageListAsync m1) as H2.
    destruct (readPackageListAsync m1) as [rb m2]. simpl in *. congruence.
  - intros [st packages].
    assert (keeps_setting (promiseAll (packageTasks st packages))) as Htasks
      by apply keeps_promiseAll, keeps_packageTasks.
    unfold writeInstallationStateAsync. cbn [fst snd]. keeps.
Qed.

Lemma installAsync_root (m : Machine) : root (snd (installAsync m)) = root m.
Proof. pose proof (keeps_installAsync m) as H. unfold setting in H. congruence. Qed.

End Keeps.

(** ** The change detector *)
Section Detector.
Context {P : Platform}.

(** C4, as the code has it.  The first test of [packageNeedsUpdate] uses
    [!==]: it flags the package exactly when no truthy fingerprint is
    recorded, or the declared token is an array or an object (two parsed
    documents never share one), or the recorded token is structurally
    unequal to the declared one.  For a scalar token (null, a boolean, a
    number, a string) this is the deep, type-sensitive comparison.  A
    package the first test flags needs an update. *)
Theorem cacheBreaker_strict_equality (m : Machine) (name : string)
    (cacheBreaker deps unversionedDepChecksums shrinkwrap : value) :
  let packageState := get (field (state m) "packages") name in
  cacheBreakerStale packageState cacheBreaker =
    negb (truthy packageState) || negb (isScalar cacheBreaker) ||
    negb (isEqual (field packageState "cacheBreaker") cacheBreaker)
  /\ implb (cacheBreakerStale packageState cacheBreaker)
       (packageNeedsUpdate m name cacheBreaker deps unversionedDepChecksums shrinkwrap)
     = true.
Proof.
  intros packageState. split.
  - unfold cacheBreakerStale.
    destruct (isScalar cacheBreaker) eqn:Hs.
    + rewrite (strict_eq_scalar _ _ Hs). by destruct (truthy packageState).
    + rewrite (strict_eq_composite _ _ Hs). by destruct (truthy packageState).
  - unfold packageNeedsUpdate. fold packageState.
    by destruct (cacheBreakerStale packageState cacheBreaker).
Qed.

(** C2, as the code has it.  With a recorded fingerprint whose token is the
    declared one, a lockfile argument that is truthy and structurally equal
    to the recorded lockfile makes [packageNeedsUpdate] answer true. *)
Theorem lockfile_equal_needs_update (m : Machine) (name : string)
    (cacheBreaker deps unversionedDepChecksums shrinkwrap : value) :
  let packageState := get (field (state m) "packages") name in
  cacheBreakerStale packageState cacheBreaker = false ->
  truthy shrinkwrap = true ->
  isEqual shrinkwrap (field packageState "shrinkwrap") = true ->
  packageNeedsUpdate m name cacheBreaker deps unversionedDepChecksums shrinkwrap = true.
Proof.
  intros packageState Hfresh Htruthy Hequal.
  unfold packageNeedsUpdate. fold packageState.
  by rewrite Hfresh, Htruthy, Hequal.
Qed.

(** What [updatePackageIfNeededAsync] asks: it passes the whole
    installation state where [packageNeedsUpdate] expects the dependencies,
    and nothing for the checksums and the lockfile.  Whenever the recorded
    dependencies are the ones just read, the answer is true. *)
Lemma packageNeedsUpdate_as_called (m : Machine) (name : string)
    (cacheBreaker deps unversionedDepChecksums shrinkwrap : value) :
  field (get (field (state m) "packages") name) "dependencies" = deps ->
  packageNeedsUpdate m name cacheBreaker
    (installationState deps unversionedDepChecksums shrinkwrap) VUndef VUndef = true.
Proof.
  intros Hdeps. unfold packageNeedsUpdate.
  destruct (cacheBreakerStale _ _); [done|].
  cbn [truthy andb]. rewrite Hdeps.
  destruct (isEqual (installationState _ _ _) deps) eqn:He; [exfalso|done].
  destruct deps as [| | | | | |p]; try discriminate.
  assert (In ("dependencies", VObj p)
            [("dependencies", VObj p);
             ("unversionedDependencyChecksums", unversionedDepChecksums);
             ("shrinkwrap", shrinkwrap)]) as Hin by (by left).
  destruct (isEqual_obj_entries _ _ He _ _ Hin) as (w & Hw & Hew).
  pose proof (isEqual_own_dependencies p) as Hself.
  unfold field in Hself. rewrite Hw in Hself.
  change (isEqual (VObj p) w = false) in Hself. congruence.
Qed.

End Detector.

(** C2 at a lockfile with one pinned dependency, recorded as it is. *)
Lemma lockfile_equal_needs_update_witness :
  let m := withState (recorded (VNum 1) depsA (VObj []) lockA) in
  cacheBreakerStale (@get demoPlatform (field (state m) "packages") "pkgA") (VNum 1) = false
  /\ truthy lockA = true
  /\ isEqual lockA (field (@get demoPlatform (field (state m) "packages") "pkgA") "shrinkwrap") = true
  /\ @packageNeedsUpdate demoPlatform m "pkgA" (VNum 1) depsA (VObj []) lockA = true.
Proof.
  cbv zeta. split; [reflexivity|]. split; [reflexivity|]. split; [reflexivity|].
  apply (@lockfile_equal_needs_update demoPlatform
           (withState (recorded (VNum 1) depsA (VObj []) lockA)) "pkgA");
    reflexivity.
Defined.

(** C2 as stated fails for a lockfile that is present and falsy: the file
    npm-shrinkwrap.json holds the document [null], the state records the
    same lockfile, token, dependencies and checksums, and the detector
    answers false. *)
Lemma lockfile_null_counterexample :
  fst (@readShrinkwrapAsync demoPlatform "pkgA"
         (set_files (<["/ws/pkgA/npm-shrinkwrap.json" := Json VNull]> scenarioFiles)
            scenarioA)) = Ok VNull
  /\ isEqual VNull
       (field (@get demoPlatform
                 (field (recorded (VNum 1) depsA (VObj []) VNull) "packages") "pkgA")
          "shrinkwrap") = true
  /\ @packageNeedsUpdate demoPlatform
       (withState (recorded (VNum 1) depsA (VObj []) VNull)) "pkgA"
       (VNum 1) depsA (VObj []) VNull = false.
Proof. repeat split; vm_compute; reflexivity. Qed.

(** C4 as stated fails for a token that is an array: the recorded token
    [[1]] is structurally equal to the declared token [[1]], nothing else
    differs, and the first test flags the package. *)
Lemma cacheBreaker_array_counterexample :
  isEqual (VArr [VNum 1]) (VArr [VNum 1]) = true
  /\ cacheBreakerStale
       (@get demoPlatform
          (field (recorded (VArr [VNum 1]) depsA (VObj []) VUndef) "packages") "pkgA")
       (VArr [VNum 1]) = true
  /\ @packageNeedsUpdate demoPlatform
       (withState (recorded (VArr [VNum 1]) depsA (VObj []) VUndef)) "pkgA"
       (VArr [VNum 1]) depsA (VObj []) VUndef = true.
Proof. repeat split; vm_compute; reflexivity. Qed.

(** ** Running the install pass *)

(** C1 at Scenario A: the first run installs both packages and completes;
    with the config, the manifests and everything else unchanged, the
    second run installs both again, and so does the third.  The detector
    is handed the whole installation state in the place of the
    dependencies, and it is never equal to the recorded dependencies. *)
Theorem second_run_reinstalls :
  let first := @installAsync demoPlatform scenarioA in
  let second := @installAsync demoPlatform (nextProcess (snd first)) in
  let third := @installAsync demoPlatform (nextProcess (snd second)) in
  fst first = Ok tt
  /\ installs (trace (snd first)) = ["/ws/pkgA"; "/ws/pkgB"]
  /\ fst second = Ok tt
  /\ installs (trace (snd second)) = ["/ws/pkgA"; "/ws/pkgB"]
  /\ fst third = Ok tt
  /\ installs (trace (snd third)) = ["/ws/pkgA"; "/ws/pkgB"]
  /\ @packageNeedsUpdate demoPlatform scenarioLater
       "pkgA" (VNum 1) (installationState depsA (VObj []) VUndef) VUndef VUndef = true.
Proof. cbv zeta. repeat split; vm_compute; reflexivity. Qed.

(** C3 at Scenario A: there is no state file, so the run takes the reset
    branch.  Both packages are installed, and the state written at the end
    records for each of them the token alone: the installation state is
    passed to [updatePackageAsync] as a promise, and the spread of a
    promise has no property. *)
Theorem full_reset_records_token_only :
  let run := @installAsync demoPlatform scenarioA in
  fst run = Ok tt
  /\ installs (trace (snd run)) = ["/ws/pkgA"; "/ws/pkgB"]
  /\ fst (@readPackageInstallationState demoPlatform "pkgA" scenarioA)
     = Ok (installationState depsA (VObj []) VUndef)
  /\ files (snd run) !! "/ws/.hyperinstall-state.json"
     = Some (Json (VObj [("cacheBreaker", VNum 0);
                         ("packages",
                          VObj [("pkgA", VObj [("cacheBreaker", VNum 1)]);
                                ("pkgB", VObj [("cacheBreaker", VNum 1)])])])).
Proof. cbv zeta. repeat split; vm_compute; reflexivity. Qed.

Section Runs.
Context {P : Platform}.

(** The reset branch, for any package: what [resetTask] records is the
    token alone, whatever the installation state is. *)
Lemma resetTask_records_token_only (m : Machine) (name : string) (cacheBreaker : value) :
  let m' := snd (resetTask name cacheBreaker m) in
  fst (resetTask name cacheBreaker m) = Ok tt ->
  lookup_prop name (updatedPackages m') = Some (VObj [("cacheBreaker", cacheBreaker)]).
Proof.
  unfold resetTask, notAwaited, updatePackageAsync, bind, reads, modify,
    execNpmInstallAsync; simpl.
  destruct (npmExit _ _); simpl; [|discriminate].
  intros _. apply lookup_set_prop_eq.
Qed.

Lemma readPackageInstallationState_shape (m m1 : Machine) (name : string) (v : value) :
  readPackageInstallationState name m = (Ok v, m1) ->
  exists deps sums shrinkwrap, v = installationState deps sums shrinkwrap.
Proof.
  unfold readPackageInstallationState. intros H.
  apply bind_Ok in H as (deps & ? & _ & H).
  apply bind_Ok in H as (shrinkwrap & ? & _ & H).
  apply bind_Ok in H as (sums & ? & _ & H).
  injection H as <- _. by eexists _, _, _.
Qed.

(** Outside the reset branch and without the force flag: a package whose
    installation state can be read and whose install succeeds is installed
    whenever the dependencies recorded for it are the ones just read, that
    is, also when nothing has changed. *)
Lemma updatePackageIfNeededAsync_installs (m m1 : Machine) (name : string)
    (cacheBreaker v : value) :
  forceInstallation m = false ->
  readPackageInstallationState name m = (Ok v, m1) ->
  field (get (field (state m1) "packages") name) "dependencies"
    = field v "dependencies" ->
  npmExit m1 (path_resolve (cwd m1) [root m1; name]) = true ->
  fst (updatePackageIfNeededAsync name cacheBreaker m) = Ok tt
  /\ trace (snd (updatePackageIfNeededAsync name cacheBreaker m))
     = trace m1 ++ [LogInstalling name;
                    Exec (path_resolve (cwd m1) [root m1; name]) true;
                    LogFinished name].
Proof.
  intros Hforce Hread Hdeps Hnpm.
  destruct (readPackageInstallationState_shape _ _ _ _ Hread)
    as (deps & sums & shrinkwrap & ->).
  assert (forceInstallation m1 = false) as Hforce1.
  { pose proof (keeps_readPackageInstallationState name m) as Hk.
    rewrite Hread in Hk. unfold setting in Hk. simpl in Hk. congruence. }
  unfold updatePackageIfNeededAsync, bind. rewrite Hread.
  unfold reads. rewrite Hforce1.
  rewrite (packageNeedsUpdate_as_called m1 name cacheBreaker deps sums shrinkwrap Hdeps).
  unfold updatePackageAsync, bind, reads, modify, execNpmInstallAsync. simpl.
  rewrite Hnpm. simpl. split; [done|].
  by rewrite <-!app_assoc.
Qed.

(** C8: [cleanAsync] on a root without state file rejects with ENOENT and
    leaves everything as it was. *)
Lemma cleanAsync_missing_state_file (m : Machine) :
  files m !! path_join (root m) STATE_FILE = None ->
  cleanAsync m = (Err ENOENT, m).
Proof.
  intros H. unfold cleanAsync, bind, reads, unlink. by rewrite H.
Qed.

End Runs.

(** A later run of Scenario A with nothing changed: [pkgA] is installed. *)
Lemma updatePackageIfNeededAsync_installs_witness :
  let m := scenarioLater in
  let m1 := snd (@readPackageInstallationState demoPlatform "pkgA" m) in
  forceInstallation m = false
  /\ @readPackageInstallationState demoPlatform "pkgA" m
     = (Ok (installationState depsA (VObj []) VUndef), m1)
  /\ field (@get demoPlatform (field (state m1) "packages") "pkgA") "dependencies"
     = field (installationState depsA (VObj []) VUndef) "dependencies"
  /\ npmExit m1 (@path_resolve demoPlatform (cwd m1) [root m1; "pkgA"]) = true
  /\ (fst (@updatePackageIfNeededAsync demoPlatform "pkgA" (VNum 1) m) = Ok tt
      /\ trace (snd (@updatePackageIfNeededAsync demoPlatform "pkgA" (VNum 1) m))
         = trace m1 ++ [LogInstalling "pkgA";
                        Exec (@path_resolve demoPlatform (cwd m1) [root m1; "pkgA"]) true;
                        LogFinished "pkgA"]).
Proof.
  cbv zeta. split; [reflexivity|]. split; [vm_compute; reflexivity|].
  split; [vm_compute; reflexivity|]. split; [vm_compute; reflexivity|].
  apply (@updatePackageIfNeededAsync_installs demoPlatform scenarioLater
           (snd (@readPackageInstallationState demoPlatform "pkgA" scenarioLater))
           "pkgA" (VNum 1) (installationState depsA (VObj []) VUndef));
    vm_compute; reflexivity.
Defined.

(** The reset branch at [pkgA] of Scenario A. *)
Lemma resetTask_records_token_only_witness :
  fst (@resetTask demoPlatform "pkgA" (VNum 1) scenarioA) = Ok tt
  /\ lookup_prop "pkgA"
       (updatedPackages (snd (@resetTask demoPlatform "pkgA" (VNum 1) scenarioA)))
     = Some (VObj [("cacheBreaker", VNum 1)]).
Proof.
  split; [vm_compute; reflexivity|].
  apply (@resetTask_records_token_only demoPlatform scenarioA "pkgA" (VNum 1)).
  vm_compute. reflexivity.
Defined.

Lemma cleanAsync_missing_state_file_witness :
  files scenarioA !! @path_join demoPlatform (root scenarioA) STATE_FILE = None
  /\ @cleanAsync demoPlatform scenarioA = (Err ENOENT, scenarioA).
Proof.
  split; [vm_compute; reflexivity|].
  apply (@cleanAsync_missing_state_file demoPlatform scenarioA).
  vm_compute. reflexivity.
Defined.

(** C8 at Scenario A, where no run has written a state file yet. *)
Theorem clean_without_state_file_rejects :
  files scenarioA !! "/ws/.hyperinstall-state.json" = None
  /\ @cleanAsync demoPlatform scenarioA = (Err ENOENT, scenarioA)
  /\ fst (@readInstallationStateAsync demoPlatform scenarioA) = Ok (VObj []).
Proof. repeat split; vm_compute; reflexivity. Qed.

(** ** The state file after a run *)

Lemma jsonify_entries_cons k v (o : props) :
  jsonify_entries ((k, v) :: o) =
  match v with
  | VUndef => jsonify_entries o
  | _ => (k, jsonify v) :: jsonify_entries o
  end.
Proof. by destruct v. Qed.

Lemma jsonify_obj (o : props) : jsonify (VObj o) = VObj (jsonify_entries o).
Proof. reflexivity. Qed.

Lemma lookup_jsonify_entries k v (o : props) :
  lookup_prop k o = Some v -> v <> VUndef ->
  lookup_prop k (jsonify_entries o) = Some (jsonify v).
Proof.
  intros Hl Hv. induction o as [|[k1 v1] o IH]; [discriminate|].
  rewrite jsonify_entries_cons. simpl in Hl.
  destruct (String.eqb_spec k k1) as [->|Hne].
  - injection Hl as ->. destruct v; [done|..]; simpl; by rewrite String.eqb_refl.
  - destruct v1; [by apply IH|..]; simpl;
      (destruct (String.eqb_spec k k1); [done|by apply IH]).
Qed.

Lemma keys_jsonify_entries k (o : props) :
  In k (keys (jsonify_entries o)) -> In k (keys o).
Proof.
  induction o as [|[k1 v1] o IH]; [done|].
  rewrite jsonify_entries_cons. destruct v1; simpl; tauto.
Qed.

Lemma prune_spec (packages : value) (names : list string) (sp out : props) :
  prune packages names sp = Ok out ->
  forall k, In k (keys out) ->
  In k (keys sp) /\ (In k names -> hasOwnProperty packages k = Ok true).
Proof.
  revert sp. induction names as [|name names IH]; simpl; intros sp H k Hk.
  - injection H as ->. tauto.
  - destruct (hasOwnProperty packages name) as [[|]|e] eqn:Hd; [| |discriminate].
    + destruct (IH _ H k Hk) as [? Hn]. split; [done|].
      intros [<-|?]; [done|by apply Hn].
    + destruct (IH _ H k Hk) as [[? Hne]%keys_delete_prop Hn]. split; [done|].
      intros [<-|?]; [done|by apply Hn].
Qed.

Section StateFile.
Context {P : Platform}.

Lemma readInstallationStateAsync_reads_only (m : Machine) :
  snd (readInstallationStateAsync m) = m.
Proof.
  unfold readInstallationStateAsync, readFile.
  by destruct (files m !! _) as [[]|].
Qed.

(** What [updateInstallationState] leaves under [packages], as the state
    file shows it: declared names only. *)
Lemma updateInstallationState_pruned (st packages st' : value) (updated : props) :
  updateInstallationState st packages updated = Ok st' ->
  forall name,
    In name (keys (ownEntries (field (jsonify st') "packages"))) ->
    hasOwnProperty packages name = Ok true.
Proof.
  unfold updateInstallationState. intros H name Hn.
  set (merged := assign (assign [] (ownEntries (field st "packages"))) updated) in H.
  destruct st as [| | | | |xs|o]; try discriminate;
    destruct (prune packages (keys merged) merged) as [pruned|] eqn:Hp;
    try discriminate; injection H as <-.
  - by destruct xs.
  - rewrite jsonify_obj in Hn. simpl in Hn.
    rewrite (lookup_jsonify_entries "packages" (VObj pruned)) in Hn;
      [|apply lookup_set_prop_eq|done].
    simpl in Hn. apply keys_jsonify_entries in Hn.
    destruct (prune_spec _ _ _ _ Hp name Hn) as [Hin Hd]. by apply Hd.
Qed.

(** C6.  After a run that completes, the state file exists, and its
    [packages] mapping has an entry only for names the config declares:
    whatever the old state held and whatever was installed. *)
Theorem persisted_packages_are_declared (m m' : Machine) (packages : value) :
  installAsync m = (Ok tt, m') ->
  fst (readPackageListAsync m) = Ok packages ->
  exists st,
    files m' !! path_join (root m) STATE_FILE = Some (Json st) /\
    forall name,
      In name (keys (ownEntries (field st "packages"))) ->
      hasOwnProperty packages name = Ok true.
Proof.
  intros Hrun Hcfg.
  assert (root m' = root m) as <-.
  { pose proof (installAsync_root m) as Hroot. by rewrite Hrun in Hroot. }
  unfold installAsync in Hrun.
  apply bind_Ok in Hrun as ([st pk] & m1 & Hload & Hrun).
  assert (pk = packages) as ->.
  { unfold promiseAll2 in Hload.
    pose proof (readInstallationStateAsync_reads_only m) as Hs.
    destruct (readInstallationStateAsync m) as [ra ma]. simpl in Hs. subst ma.
    destruct (readPackageListAsync m) as [rb mb]. simpl in Hcfg. subst rb.
    injection Hload as Hload _.
    by apply together_Ok in Hload as (? & ? & _ & [= <-] & [= _ <-]). }
  apply bind_Ok in Hrun as ([] & m2 & _ & Hrun). cbn [fst snd] in Hrun.
  assert (exists mt updated st',
            updateInstallationState st packages updated = Ok st' /\
            writeInstallationStateAsync st' (set_state st' mt) = (Ok tt, m'))
    as (mt & updated & st' & Hst & Hw).
  { destruct st; try discriminate;
      apply bind_Ok in Hrun as ([] & m3 & _ & Hrun);
      apply bind_Ok in Hrun as (updated & m4 & _ & Hrun);
      apply bind_Ok in Hrun as ([] & m5 & _ & Hrun);
      apply bind_Ok in Hrun as (st' & m6 & Hst & Hrun);
      apply bind_Ok in Hrun as ([] & m7 & Hm & Hrun);
      unfold lift in Hst; injection Hst as Hst <-; try discriminate;
      unfold modify in Hm; injection Hm as <-; eauto. }
  unfold writeInstallationStateAsync, bind, reads, writeJSON, modify in Hw.
  injection Hw as <-. exists (jsonify st'). split.
  - simpl. apply lookup_insert_eq.
  - by apply (updateInstallationState_pruned st packages st' updated).
Qed.

End StateFile.

(** C6 at Scenario C: [pkgB] is recorded and no longer declared. *)
Lemma persisted_packages_are_declared_witness :
  @installAsync demoPlatform scenarioC
    = (Ok tt, snd (@installAsync demoPlatform scenarioC))
  /\ fst (@readPackageListAsync demoPlatform scenarioC) = Ok configC
  /\ exists st,
       files (snd (@installAsync demoPlatform scenarioC))
         !! @path_join demoPlatform (root scenarioC) STATE_FILE = Some (Json st) /\
       forall name,
         In name (keys (ownEntries (field st "packages"))) ->
         hasOwnProperty configC name = Ok true.
Proof.
  split; [vm_compute; reflexivity|]. split; [vm_compute; reflexivity|].
  apply (@persisted_packages_are_declared demoPlatform scenarioC _ configC);
    vm_compute; reflexivity.
Defined.

(** Scenario C run: the entry of [pkgB] is gone from the state file, and
    no install of [pkgB] took place. *)
Example scenarioC_drops_pkgB :
  installs (trace (snd (@installAsync demoPlatform scenarioC))) = ["/ws/pkgA"]
  /\ files (snd (@installAsync demoPlatform scenarioC)) !! "/ws/.hyperinstall-state.json"
     = Some (Json (VObj [("cacheBreaker", VNum 0);
                         ("packages",
                          VObj [("pkgA",
                                 VObj [("dependencies", depsA);
                                       ("unversionedDependencyChecksums", VObj []);
                                       ("cacheBreaker", VNum 1)])])])).
Proof. split; vm_compute; reflexivity. Qed.

(** ** The content checksum *)

(** *** The order of [sortBy] *)

Lemma string_leb_cons c1 s1 c2 s2 :
  String.leb (String c1 s1) (String c2 s2) = true <->
  (N_of_ascii c1 < N_of_ascii c2)%N \/ (c1 = c2 /\ String.leb s1 s2 = true).
Proof.
  unfold String.leb. simpl. unfold Ascii.compare.
  destruct (N.compare_spec (N_of_ascii c1) (N_of_ascii c2)) as [He|Hl|Hg].
  - assert (c1 = c2) as ->.
    { rewrite <-(ascii_N_embedding c1), <-(ascii_N_embedding c2). by rewrite He. }
    split; [by right|]. intros [?|[_ ?]]; [lia|done].
  - split; [by left|done].
  - split; [done|]. intros [?|[-> _]]; lia.
Qed.

#[global] Instance string_le_trans : Transitive string_le.
Proof.
  unfold string_le. intros a. induction a as [|c1 a IH]; intros [|c2 b] [|c3 c];
    try done.
  rewrite !string_leb_cons. intros [?|[-> ?]] [?|[-> ?]].
  - left. lia.
  - by left.
  - by left.
  - right. split; [done|]. by apply (IH b c).
Qed.

#[global] Instance string_le_antisym : AntiSymm (=) string_le.
Proof. intros a b. apply String.leb_antisym. Qed.

#[global] Instance string_le_total : Total string_le.
Proof. intros a b. apply String.leb_total. Qed.

Lemma sortBy_Permutation (l l' : list string) : l ≡ₚ l' -> sortBy l = sortBy l'.
Proof.
  intros Hp. unfold sortBy.
  apply (Sorted_unique string_le); [apply Sorted_merge_sort, _..|].
  by rewrite !merge_sort_Permutation.
Qed.

(** *** One directory *)

Lemma set_prop_fresh {A} k (v : A) (o : list (string * A)) :
  ~ In k (keys o) -> set_prop k v o = o ++ [(k, v)].
Proof.
  induction o as [|[k1 v1] o IH]; simpl; [done|]. intros Hn.
  destruct (String.eqb_spec k k1) as [->|Hne]; [tauto|].
  f_equal. apply IH. tauto.
Qed.

Lemma fold_set_prop_fresh {A B} (f : B -> string) (g : B -> A)
    (l : list B) (acc : list (string * A)) :
  NoDup (keys acc ++ map f l) ->
  fold_left (fun o b => set_prop (f b) (g b) o) l acc
  = acc ++ map (fun b => (f b, g b)) l.
Proof.
  revert acc. induction l as [|b l IH]; intros acc Hnd; simpl.
  - by rewrite app_nil_r.
  - assert (~ In (f b) (keys acc)) as Hfresh.
    { intros Hin. apply NoDup_app in Hnd as (_ & Hd & _).
      apply (Hd (f b)); [by apply list_elem_of_In|]. simpl. left. }
    rewrite (set_prop_fresh _ _ _ Hfresh), IH.
    + by rewrite <-app_assoc.
    + unfold keys in *. rewrite map_app. simpl. by rewrite <-app_assoc.
Qed.

Lemma promiseProps_map {B} (f : B -> string) (h : B -> string) (l : list B) :
  promiseProps (map (fun b => (f b, Ok (h b))) l) = Ok (map (fun b => (f b, h b)) l).
Proof. induction l as [|b l IH]; simpl; [done|]. by rewrite IH. Qed.

Lemma promiseProps_Ok_inv {A B} (f : B -> string) (g : B -> result A)
    (l : list B) (o : list (string * A)) :
  promiseProps (map (fun b => (f b, g b)) l) = Ok o ->
  Forall (fun b => is_ok (g b) = true) l.
Proof.
  revert o. induction l as [|b l IH]; intros o; simpl; [by constructor|].
  intros (a & o' & Hg & Hp & _)%together_Ok.
  constructor; [by rewrite Hg|]. by eapply IH.
Qed.

Section Checksum.
Context {P : Platform}.

Lemma readFileChecksumAsync_fst (m : Machine) (filePath : string) :
  fst (readFileChecksumAsync filePath "sha1" m)
  = match contents m filePath with
    | Ok bytes => Ok (createHash "sha1" bytes)
    | Err e => Err e
    end.
Proof.
  unfold readFileChecksumAsync, bind, reads, lift, ret.
  by destruct (contents m filePath).
Qed.

(** The checksum of a directory whose listing names no file twice: the
    hash of the sorted digests of its files, when all of them can be read,
    and an error otherwise. *)
Lemma readPackageChecksumAsync_listing (m : Machine) (packagePath : string)
    (entries : list string) :
  children m packagePath = Ok entries ->
  NoDup (map (path_relative (cwd m) packagePath) entries) ->
  (Forall (fun a => is_ok (contents m a) = true) entries ->
   fst (readPackageChecksumAsync packagePath m)
   = Ok (createHash "sha1" (String.concat "" (sortBy (map (hexOf m) entries)))))
  /\ (is_ok (fst (readPackageChecksumAsync packagePath m)) = true ->
      Forall (fun a => is_ok (contents m a) = true) entries).
Proof.
  intros Hch Hnd.
  assert (fileChecksumPromises packagePath entries m
          = map (fun a => (path_relative (cwd m) packagePath a,
                           fst (readFileChecksumAsync a "sha1" m))) entries) as Hpromises.
  { unfold fileChecksumPromises.
    by rewrite (fold_set_prop_fresh (path_relative (cwd m) packagePath)
                  (fun a => fst (readFileChecksumAsync a "sha1" m))). }
  unfold readPackageChecksumAsync, bind, reads, lift, ret.
  rewrite Hch, Hpromises. split.
  - intros Hall.
    rewrite (map_ext_in _ (fun a => (path_relative (cwd m) packagePath a, Ok (hexOf m a)))).
    + rewrite promiseProps_map. simpl. unfold hashOfHashes.
      by rewrite map_map.
    + intros a Ha. rewrite Forall_forall in Hall.
      specialize (Hall a ltac:(by apply list_elem_of_In)).
      rewrite readFileChecksumAsync_fst. unfold hexOf.
      by destruct (contents m a).
  - destruct (promiseProps _) as [o|] eqn:Hp; [|done]. intros _.
    apply promiseProps_Ok_inv in Hp.
    eapply Forall_impl; [exact Hp|]. intros a. simpl.
    rewrite readFileChecksumAsync_fst. by destruct (contents m a).
Qed.


Lemma hashOfHashes_Permutation (fileChecksums fileChecksums' : list (string * string)) :
  map snd fileChecksums ≡ₚ map snd fileChecksums' ->
  hashOfHashes fileChecksums = hashOfHashes fileChecksums'.
Proof. intros Hp. unfold hashOfHashes. by rewrite (sortBy_Permutation _ _ Hp). Qed.

(** C7.  Two listings of one directory that differ only in the order in
    which the stream emits the files give the same checksum; and so do two
    objects of file checksums that differ only in the order in which the
    checksums arrived. *)
Theorem checksum_order_independent (m m' : Machine) (packagePath : string)
    (entries entries' : list string) (checksum : string) :
  children m packagePath = Ok entries ->
  children m' packagePath = Ok entries' ->
  entries ≡ₚ entries' ->
  (forall a, contents m' a = contents m a) ->
  cwd m' = cwd m ->
  NoDup (map (path_relative (cwd m) packagePath) entries) ->
  fst (readPackageChecksumAsync packagePath m) = Ok checksum ->
  fst (readPackageChecksumAsync packagePath m') = Ok checksum
  /\ forall fileChecksums fileChecksums' : list (string * string),
       fileChecksums ≡ₚ fileChecksums' ->
       hashOfHashes fileChecksums = hashOfHashes fileChecksums'.
Proof.
  intros Hch Hch' Hperm Hcontents Hcwd Hnd Hok. split.
  - destruct (readPackageChecksumAsync_listing m packagePath entries Hch Hnd)
      as [Hval Hall].
    specialize (Hall ltac:(by rewrite Hok)). rewrite (Hval Hall) in Hok.
    injection Hok as <-.
    assert (NoDup (map (path_relative (cwd m') packagePath) entries')) as Hnd'.
    { rewrite Hcwd.
      by rewrite <-(Permutation_map (path_relative (cwd m) packagePath) Hperm). }
    destruct (readPackageChecksumAsync_listing m' packagePath entries' Hch' Hnd')
      as [Hval' _].
    rewrite Hval'.
    + do 3 f_equal. apply sortBy_Permutation.
      rewrite (map_ext (hexOf m') (hexOf m)).
      * symmetry. by apply Permutation_map.
      * intros a. unfold hexOf. by rewrite Hcontents.
    + rewrite <-Hperm. eapply Forall_impl; [exact Hall|].
      intros a. simpl. by rewrite Hcontents.
  - intros fc fc' Hp. apply hashOfHashes_Permutation. by apply Permutation_map.
Qed.

(** C10.  The checksum depends on the contents of the files alone: two
    directories, or one directory before and after files were renamed or
    had their contents exchanged, have the same checksum as soon as their
    files have the same contents, counted with multiplicity. *)
Theorem checksum_ignores_names (m m' : Machine) (packagePath packagePath' : string)
    (entries entries' : list string) (checksum : string) :
  children m packagePath = Ok entries ->
  children m' packagePath' = Ok entries' ->
  NoDup (map (path_relative (cwd m) packagePath) entries) ->
  NoDup (map (path_relative (cwd m') packagePath') entries') ->
  map (contents m) entries ≡ₚ map (contents m') entries' ->
  fst (readPackageChecksumAsync packagePath m) = Ok checksum ->
  fst (readPackageChecksumAsync packagePath' m') = Ok checksum.
Proof.
  intros Hch Hch' Hnd Hnd' Hperm Hok.
  destruct (readPackageChecksumAsync_listing m packagePath entries Hch Hnd)
    as [Hval Hall].
  specialize (Hall ltac:(by rewrite Hok)). rewrite (Hval Hall) in Hok.
  injection Hok as <-.
  destruct (readPackageChecksumAsync_listing m' packagePath' entries' Hch' Hnd')
    as [Hval' _].
  set (hex := fun r : result string =>
                match r with Ok bytes => createHash "sha1" bytes | Err _ => "" end).
  assert (forall n l, map (hexOf n) l = map hex (map (contents n) l)) as Hhex.
  { intros n l. by rewrite map_map. }
  rewrite Hval'.
  - do 3 f_equal. apply sortBy_Permutation. rewrite !Hhex.
    symmetry. by apply Permutation_map.
  - assert (Forall (fun r : result string => is_ok r = true) (map (contents m') entries'))
      as Hall'.
    { rewrite <-Hperm. by apply Forall_map. }
    by apply Forall_map in Hall'.
Qed.

End Checksum.

(** C7 at a directory of two files, listed in the two possible orders. *)
Lemma checksum_order_independent_witness :
  let m := withListing ["/ws/lib/a.js"; "/ws/lib/b.js"] libContents in
  let m' := withListing ["/ws/lib/b.js"; "/ws/lib/a.js"] libContents in
  fst (@readPackageChecksumAsync demoPlatform "/ws/lib" m)
    = Ok "sha1:sha1:alphasha1:beta"
  /\ (fst (@readPackageChecksumAsync demoPlatform "/ws/lib" m')
        = Ok "sha1:sha1:alphasha1:beta"
      /\ forall fileChecksums fileChecksums' : list (string * string),
           fileChecksums ≡ₚ fileChecksums' ->
           @hashOfHashes demoPlatform fileChecksums
           = @hashOfHashes demoPlatform fileChecksums').
Proof.
  cbv zeta. split; [vm_compute; reflexivity|].
  apply (@checksum_order_independent demoPlatform
           (withListing ["/ws/lib/a.js"; "/ws/lib/b.js"] libContents)
           (withListing ["/ws/lib/b.js"; "/ws/lib/a.js"] libContents)
           "/ws/lib" ["/ws/lib/a.js"; "/ws/lib/b.js"] ["/ws/lib/b.js"; "/ws/lib/a.js"]).
  - reflexivity.
  - reflexivity.
  - apply perm_swap.
  - reflexivity.
  - reflexivity.
  - apply (bool_decide_unpack _). vm_compute. reflexivity.
  - vm_compute. reflexivity.
Defined.

(** C10 at the same directory, before and after [a.js] became [c.js]. *)
Lemma checksum_ignores_names_witness :
  let m := withListing ["/ws/lib/a.js"; "/ws/lib/b.js"] libContents in
  let m' := withListing ["/ws/lib/b.js"; "/ws/lib/c.js"] libRenamed in
  fst (@readPackageChecksumAsync demoPlatform "/ws/lib" m)
    = Ok "sha1:sha1:alphasha1:beta"
  /\ fst (@readPackageChecksumAsync demoPlatform "/ws/lib" m')
     = Ok "sha1:sha1:alphasha1:beta".
Proof.
  cbv zeta. split; [vm_compute; reflexivity|].
  apply (@checksum_ignores_names demoPlatform
           (withListing ["/ws/lib/a.js"; "/ws/lib/b.js"] libContents)
           (withListing ["/ws/lib/b.js"; "/ws/lib/c.js"] libRenamed)
           "/ws/lib" "/ws/lib"
           ["/ws/lib/a.js"; "/ws/lib/b.js"] ["/ws/lib/b.js"; "/ws/lib/c.js"]).
  - reflexivity.
  - reflexivity.
  - apply (bool_decide_unpack _). vm_compute. reflexivity.
  - apply (bool_decide_unpack _). vm_compute. reflexivity.
  - apply perm_swap.
  - vm_compute. reflexivity.
Defined.


(** Exchanging the contents of the two files leaves the checksum as it
    was. *)
Example checksum_after_exchange :
  fst (@readPackageChecksumAsync demoPlatform "/ws/lib"
         (withListing ["/ws/lib/a.js"; "/ws/lib/b.js"] libExchanged))
  = fst (@readPackageChecksumAsync demoPlatform "/ws/lib"
           (withListing ["/ws/lib/a.js"; "/ws/lib/b.js"] libContents)).
Proof. vm_compute. reflexivity. Qed.

(** ** Local dependencies *)
Section LocalDeps.
Context {P : Platform}.

(** C9, as the code has it.  [filterLocalDeps] sets the working directory
    of the process to the package's directory, classifies every dependency
    against it, and sets the working directory back on every way out.  As
    long as the original working directory still exists, the process is
    left where it was and no file is touched; the classification is the
    one [classify] computes from the package's directory, the names and
    the specifiers; and when the package's directory does not exist, the
    method throws before it changes anything. *)
Theorem filterLocalDeps_restores_cwd (m : Machine) (name : string) (deps : value) :
  dirs m (cwd m) = true ->
  let packagePath := path_resolve (cwd m) [root m; name] in
  let run := filterLocalDeps name deps m in
  cwd (snd run) = cwd m
  /\ files (snd run) = files m
  /\ (if dirs m packagePath
      then fst run = classify packagePath (toPairsIn deps) [] /\
           trace (snd run) = trace m ++ [Chdir packagePath; Chdir (cwd m)]
      else fst run = Err ENOENT /\ snd run = m).
Proof.
  intros Hcwd packagePath run. subst run. unfold filterLocalDeps, chdir.
  fold packagePath. destruct (dirs m packagePath) eqn:Hd; simpl; [|done].
  rewrite Hcwd. simpl. split_and!; try done.
  by rewrite <-app_assoc.
Qed.

End LocalDeps.

(** C9 at [pkgA] of Scenario A with a sibling linked by ["../pkgB"]. *)
Lemma filterLocalDeps_restores_cwd_witness :
  dirs scenarioA (cwd scenarioA) = true
  /\ (cwd (snd (@filterLocalDeps demoPlatform "pkgA" depsWithSibling scenarioA))
        = cwd scenarioA
      /\ files (snd (@filterLocalDeps demoPlatform "pkgA" depsWithSibling scenarioA))
         = files scenarioA
      /\ (if dirs scenarioA (@path_resolve demoPlatform (cwd scenarioA) [root scenarioA; "pkgA"])
          then fst (@filterLocalDeps demoPlatform "pkgA" depsWithSibling scenarioA)
               = @classify demoPlatform
                   (@path_resolve demoPlatform (cwd scenarioA) [root scenarioA; "pkgA"])
                   (toPairsIn depsWithSibling) []
               /\ trace (snd (@filterLocalDeps demoPlatform "pkgA" depsWithSibling scenarioA))
                  = trace scenarioA
                    ++ [Chdir (@path_resolve demoPlatform (cwd scenarioA) [root scenarioA; "pkgA"]);
                        Chdir (cwd scenarioA)]
          else fst (@filterLocalDeps demoPlatform "pkgA" depsWithSibling scenarioA)
               = Err ENOENT
               /\ snd (@filterLocalDeps demoPlatform "pkgA" depsWithSibling scenarioA)
                  = scenarioA)).
Proof.
  split; [reflexivity|].
  apply (@filterLocalDeps_restores_cwd demoPlatform scenarioA "pkgA" depsWithSibling).
  reflexivity.
Defined.

(** C9 as stated fails: classifying the dependencies of [pkgA] changes the
    working directory of the process, twice, and the path it finds for the
    sibling is the one [npmPackageArg] resolves against that directory;
    against the directory the process was in, the same name and specifier
    give another path. *)
Lemma filterLocalDeps_chdir_counterexample :
  trace (snd (@filterLocalDeps demoPlatform "pkgA" depsWithSibling scenarioA))
    = [Chdir "/ws/pkgA"; Chdir "/ws"]
  /\ fst (@filterLocalDeps demoPlatform "pkgA" depsWithSibling scenarioA)
     = Ok [("sibling", "/ws/pkgA/../pkgB")]
  /\ @classify demoPlatform (cwd scenarioA) (toPairsIn depsWithSibling) []
     = Ok [("sibling", "/ws/../pkgB")].
Proof. repeat split; vm_compute; reflexivity. Qed.
(** ** The install lock *)

Lemma holding_insert (ts : list pc) (i j : nat) (p q : pc) :
  ts !! i = Some q ->
  holding (<[i := p]> ts) j <-> (j = i /\ holds p = true) \/ (j <> i /\ holding ts j).
Proof.
  intros Hi. unfold holding. destruct (decide (j = i)) as [->|Hne].
  - rewrite list_lookup_insert_eq by (by eapply lookup_lt_Some).
    split.
    + intros (p' & [= <-] & ?). by left.
    + intros [[_ ?]|[? _]]; [eauto|done].
  - rewrite list_lookup_insert_ne by done. split; [by right|].
    intros [[? _]|[_ ?]]; done.
Qed.

Lemma holding_not (ts : list pc) (i : nat) (q : pc) :
  ts !! i = Some q -> holds q = false -> ~ holding ts i.
Proof. intros Hi Hq (p & Hp & Hh). congruence. Qed.

Lemma lock_inv_initial (n : nat) : lock_inv (initial n).
Proof.
  assert (forall i, ~ holding (replicate n Detecting) i) as Hnone.
  { intros i (p & [-> _]%lookup_replicate & Hh). discriminate. }
  split; simpl.
  - intros i j Hi. by destruct (Hnone i).
  - done.
  - discriminate.
  - intros j Hj. by apply elem_of_nil in Hj.
  - constructor.
Qed.

(** A task that moves without touching the lock, between two points that
    are both inside or both outside the locked region. *)
Lemma lock_inv_move (r : Run) (i : nat) (p q : pc) :
  tasks r !! i = Some q -> holds p = holds q -> q <> Waiting ->
  lock_inv r -> lock_inv (mkRun (installLock r) (<[i := p]> (tasks r))).
Proof.
  intros Hi Hpq Hq [Hu Hf Hh Hw Hn].
  assert (forall j, holding (<[i := p]> (tasks r)) j <-> holding (tasks r) j) as Hsame.
  { intros j. rewrite (holding_insert _ _ _ _ _ Hi). split.
    - intros [[-> Hp]|[_ ?]]; [|done]. exists q. split; [done|congruence].
    - intros Hj. destruct (decide (j = i)) as [->|]; [left|by right].
      split; [done|]. destruct Hj as (q' & ? & ?). congruence. }
  split; simpl.
  - intros j k ?%Hsame ?%Hsame. by apply Hu.
  - intros [Hnone ?]%Hf. split; [|done]. intros j ?%Hsame. by apply (Hnone j).
  - intros [j Hj]%Hh. exists j. by apply Hsame.
  - intros j Hj. specialize (Hw j Hj).
    rewrite list_lookup_insert_ne; [done|]. intros ->. congruence.
  - done.
Qed.

Lemma lock_inv_step (r r' : Run) : step r r' -> lock_inv r -> lock_inv r'.
Proof.
  intros Hstep Hinv. destruct Hstep as [r i Hi|r i Hi|r i Hi|r i ok Hi|r i ok Hi].
  - by apply (lock_inv_move r i Skipped Detecting).
  - destruct Hinv as [Hu Hf Hh Hw Hn]. unfold acquireAsync.
    destruct (acquired (installLock r)) eqn:Ha; simpl.
    + (* the lock is taken: the task queues *)
      assert (forall j, holding (<[i := Waiting]> (tasks r)) j <-> holding (tasks r) j)
        as Hsame.
      { intros j. rewrite (holding_insert _ _ _ _ _ Hi). split.
        - intros [[_ ?]|[_ ?]]; done.
        - intros Hj. right. split; [|done]. intros ->.
          by apply (holding_not _ _ _ Hi). }
      split; simpl.
      * intros j k ?%Hsame ?%Hsame. by apply Hu.
      * discriminate.
      * intros _. destruct (Hh eq_refl) as [j Hj]. exists j. by apply Hsame.
      * intros j [Hj| ->%list_elem_of_singleton]%elem_of_app.
        -- specialize (Hw j Hj). rewrite list_lookup_insert_ne; [done|].
           intros ->. congruence.
        -- apply list_lookup_insert_eq. by eapply lookup_lt_Some.
      * apply NoDup_app. split_and!; [done| |apply NoDup_singleton].
        intros j Hj ->%list_elem_of_singleton. specialize (Hw i Hj). congruence.
    + (* the lock is free: the task has it *)
      destruct (Hf eq_refl) as [Hnone Hempty].
      assert (forall j, holding (<[i := Locked]> (tasks r)) j <-> j = i) as Honly.
      { intros j. rewrite (holding_insert _ _ _ _ _ Hi). split.
        - intros [[? _]|[_ ?]]; [done|]. by destruct (Hnone j).
        - intros ->. by left. }
      split; simpl.
      * intros j k ->%Honly ->%Honly. done.
      * discriminate.
      * intros _. exists i. by apply Honly.
      * rewrite Hempty. intros j Hj. by apply elem_of_nil in Hj.
      * exact Hn.
  - by apply (lock_inv_move r i Installing Locked).
  - by apply (lock_inv_move r i (Settled ok) Installing).
  - destruct Hinv as [Hu Hf Hh Hw Hn].
    assert (holding (tasks r) i) as Hhi by (by exists (Settled ok)).
    assert (forall j, ~ holding (<[i := Released ok]> (tasks r)) j) as Hnone.
    { intros j [[_ ?]|[Hne Hj]]%(holding_insert _ _ _ _ _ Hi); [done|].
      apply Hne. by apply Hu. }
    unfold release. destruct (waitingResolvers (installLock r)) as [|k rest] eqn:Hq;
      simpl.
    + (* nobody waits: the lock is free again *)
      split; simpl.
      * intros j k Hj. by destruct (Hnone j).
      * done.
      * discriminate.
      * intros j Hj. by apply elem_of_nil in Hj.
      * constructor.
    + (* the lock goes to the first waiter *)
      assert (tasks r !! k = Some Waiting) as Hk by (apply Hw; left).
      assert (k <> i) as Hki by (intros ->; congruence).
      assert (<[i := Released ok]> (tasks r) !! k = Some Waiting) as Hk'
        by (by rewrite list_lookup_insert_ne).
      assert (forall j, holding (<[k := Locked]> (<[i := Released ok]> (tasks r))) j
                        <-> j = k) as Honly.
      { intros j. rewrite (holding_insert _ _ _ _ _ Hk'). split.
        - intros [[? _]|[_ ?]]; [done|]. by destruct (Hnone j).
        - intros ->. by left. }
      apply NoDup_cons in Hn as [Hkrest Hn].
      split; simpl.
      * intros j j' ->%Honly ->%Honly. done.
      * intros Ha. destruct (Hf Ha) as [_ ?]. congruence.
      * intros _. exists k. by apply Honly.
      * intros j Hj.
        assert (j <> k) by (by intros ->).
        assert (j <> i)
          by (intros ->; specialize (Hw i ltac:(by right)); congruence).
        rewrite !list_lookup_insert_ne by done. apply Hw. by right.
      * done.
Qed.

Lemma lock_inv_reachable (n : nat) (r : Run) : reachable n r -> lock_inv r.
Proof.
  unfold reachable. revert r.
  apply (rtc_ind_r (fun r => lock_inv r) (initial n)); [apply lock_inv_initial|].
  intros r r' _ Hstep Hinv. by apply (lock_inv_step r r').
Qed.

(** C5.  In every state the run can reach, whatever the order in which the
    tasks move: at most one install is running; a task whose install has
    ended, with success or with failure, releases the lock in its next
    move; and the lock is acquired only while some task is between its
    grant and its release. *)
Theorem installs_never_overlap (n : nat) (r : Run) :
  reachable n r ->
  (forall i j,
     tasks r !! i = Some Installing -> tasks r !! j = Some Installing -> i = j)
  /\ (forall i ok,
        tasks r !! i = Some (Settled ok) ->
        exists r', step r r' /\ tasks r' !! i = Some (Released ok))
  /\ ((forall i p, tasks r !! i = Some p -> holds p = false) ->
      acquired (installLock r) = false).
Proof.
  intros Hr. pose proof (lock_inv_reachable n r Hr) as [Hu Hf Hh Hw Hn].
  split_and!.
  - intros i j Hi Hj. apply Hu; by exists Installing.
  - intros i ok Hi. eexists. split; [by apply (step_release r i ok)|]. simpl.
    assert (<[i := Released ok]> (tasks r) !! i = Some (Released ok)) as Hrel.
    { apply list_lookup_insert_eq. by eapply lookup_lt_Some. }
    unfold release. destruct (waitingResolvers (installLock r)) as [|k rest] eqn:Hq;
      simpl; [done|].
    rewrite list_lookup_insert_ne; [done|].
    intros ->. specialize (Hw i ltac:(left)). congruence.
  - intros Hnone. destruct (acquired (installLock r)) eqn:Ha; [|done].
    destruct (Hh eq_refl) as (i & p & Hp & Hhold).
    rewrite (Hnone i p Hp) in Hhold. discriminate.
Qed.

(** C5 at two packages, while the first installs and the second waits. *)
Lemma installs_never_overlap_witness :
  reachable 2 twoTasks
  /\ ((forall i j,
        tasks twoTasks !! i = Some Installing ->
        tasks twoTasks !! j = Some Installing -> i = j)
      /\ (forall i ok,
            tasks twoTasks !! i = Some (Settled ok) ->
            exists r', step twoTasks r' /\ tasks r' !! i = Some (Released ok))
      /\ ((forall i p, tasks twoTasks !! i = Some p -> holds p = false) ->
          acquired (installLock twoTasks) = false)).
Proof.
  assert (reachable 2 twoTasks) as Hr.
  { unfold reachable.
    eapply rtc_l; [by apply (step_acquire (initial 2) 0)|].
    eapply rtc_l; [by apply (step_acquire _ 1)|].
    eapply rtc_l; [by apply (step_exec _ 0)|].
    apply rtc_refl. }
  split; [exact Hr|]. exact (installs_never_overlap 2 twoTasks Hr).
Defined.


(* ===================================================================== *)
(** * Part III: further properties of the methods                         *)
(* ===================================================================== *)

(** ** Frames *)

Lemma preserves_ret {A B} (f : Machine -> B) (a : A) : preserves f (ret a).
Proof. by intros m. Qed.

Lemma preserves_throw {A B} (f : Machine -> B) (e : error) : preserves f (@throw A e).
Proof. by intros m. Qed.

Lemma preserves_lift {A B} (f : Machine -> B) (r : result A) : preserves f (lift r).
Proof. by intros m. Qed.

Lemma preserves_reads {B C} (f : Machine -> B) (g : Machine -> C) :
  preserves f (reads g).
Proof. by intros m. Qed.

Lemma preserves_modify {B} (f : Machine -> B) (g : Machine -> Machine) :
  (forall m, f (g m) = f m) -> preserves f (modify g).
Proof. intros Hg m. apply Hg. Qed.

Lemma preserves_bind {A B C} (f : Machine -> C) (c : M A) (k : A -> M B) :
  preserves f c -> (forall a, preserves f (k a)) -> preserves f (bind c k).
Proof.
  intros Hc Hk m. unfold bind. specialize (Hc m).
  destruct (c m) as [[a|e] m1]; simpl in *; [|done].
  by rewrite (Hk a m1).
Qed.

Create HintDb frame discriminated.
#[global] Hint Resolve preserves_ret preserves_throw preserves_lift preserves_reads : frame.

Ltac frame :=
  repeat first
    [ apply preserves_bind; [|intros ?]
    | apply preserves_modify; intros ?; reflexivity
    | solve [eauto with frame]
    | match goal with
      | |- preserves _ (match ?x with _ => _ end) => destruct x
      end ].

Lemma quiet_ret {A} (a : A) : quiet (ret a).
Proof. by intros m. Qed.

Lemma quiet_throw {A} (e : error) : quiet (@throw A e).
Proof. by intros m. Qed.

Lemma quiet_lift {A} (r : result A) : quiet (lift r).
Proof. by intros m. Qed.

Lemma quiet_reads {A} (g : Machine -> A) : quiet (reads g).
Proof. by intros m. Qed.

Lemma surroundings_cwd_exists (m m1 : Machine) :
  surroundings m1 = surroundings m -> dirs m1 (cwd m1) = dirs m (cwd m).
Proof. unfold surroundings, setting. intros [= _ _ Hdirs _ _ _ Hcwd _ _ _ _]. congruence. Qed.

Lemma quiet_bind {A B} (c : M A) (k : A -> M B) :
  quiet c -> (forall a, quiet (k a)) -> quiet (bind c k).
Proof.
  intros Hc Hk m Hd. unfold bind. specialize (Hc m Hd).
  destruct (c m) as [[a|e] m1]; simpl in *; [|done].
  rewrite <-Hc. apply Hk. by rewrite (surroundings_cwd_exists _ _ Hc).
Qed.

Create HintDb quiet discriminated.
#[global] Hint Resolve quiet_ret quiet_throw quiet_lift quiet_reads : quiet.

Ltac quiet :=
  repeat first
    [ apply quiet_bind; [|intros ?]
    | solve [eauto with quiet]
    | match goal with
      | |- quiet (match ?x with _ => _ end) => destruct x
      end ].

Lemma quiet_readFile path : quiet (readFile path).
Proof. intros m _. unfold readFile. by destruct (files m !! path) as [[]|]. Qed.

#[global] Hint Resolve quiet_readFile : quiet.

Section Frames.
Context {P : Platform}.

Lemma quiet_readShrinkwrapAsync name : quiet (readShrinkwrapAsync name).
Proof.
  intros m Hd. unfold readShrinkwrapAsync.
  pose proof (quiet_readFile
                (path_resolve (cwd m) [root m; name; "npm-shrinkwrap.json"]) m Hd) as H.
  by destruct (readFile _ m) as [[?|[]] ?].
Qed.

Lemma quiet_readPackageDepsAsync name : quiet (readPackageDepsAsync name).
Proof. unfold readPackageDepsAsync. quiet. Qed.

Lemma quiet_filterLocalDeps name deps : quiet (filterLocalDeps name deps).
Proof.
  intros m Hd. unfold filterLocalDeps, chdir.
  destruct (dirs m (path_resolve (cwd m) [root m; name])); [|done].
  simpl. rewrite Hd. simpl.
  unfold surroundings, setting, withoutChdir. simpl.
  by rewrite !List.filter_app, !app_nil_r.
Qed.

Lemma quiet_readPackageChecksumAsync packagePath :
  quiet (readPackageChecksumAsync packagePath).
Proof. unfold readPackageChecksumAsync. quiet. Qed.

#[local] Hint Resolve quiet_readShrinkwrapAsync quiet_readPackageDepsAsync
  quiet_filterLocalDeps quiet_readPackageChecksumAsync : quiet.

Lemma quiet_readUnversionedDepChecksumsAsync name deps :
  quiet (readUnversionedDepChecksumsAsync name deps).
Proof. unfold readUnversionedDepChecksumsAsync. quiet. Qed.

#[local] Hint Resolve quiet_readUnversionedDepChecksumsAsync : quiet.

Lemma quiet_readPackageInstallationState name :
  quiet (readPackageInstallationState name).
Proof. unfold readPackageInstallationState. quiet. Qed.

Lemma installs_cons (e : event) (t : list event) :
  installs (e :: t) = match e with Exec p _ => p :: installs t | _ => installs t end.
Proof. by destruct e. Qed.

Lemma installs_app (t t' : list event) : installs (t ++ t') = installs t ++ installs t'.
Proof. apply omap_app. Qed.

Lemma installs_withoutChdir (t : list event) : installs (withoutChdir t) = installs t.
Proof.
  induction t as [|e t IH]; [done|]. unfold withoutChdir in *.
  destruct e; cbn [List.filter]; rewrite !installs_cons; by rewrite IH.
Qed.

(** Computing the installation state of a package reads and nothing else:
    started in a working directory that exists, it leaves the files, the
    working directory, the recorded state and the updated packages as they
    were, and adds nothing to the trace but [chdir] calls; no install
    runs. *)
Theorem fingerprint_reads_only (m : Machine) (name : string) :
  dirs m (cwd m) = true ->
  let m' := snd (readPackageInstallationState name m) in
  files m' = files m /\ cwd m' = cwd m /\ state m' = state m
  /\ updatedPackages m' = updatedPackages m
  /\ withoutChdir (trace m') = withoutChdir (trace m)
  /\ installs (trace m') = installs (trace m).
Proof.
  intros Hd m'. pose proof (quiet_readPackageInstallationState name m Hd) as Hq.
  fold m' in Hq. unfold surroundings in Hq.
  injection Hq as _ _ _ _ _ _ Hcwd Hfiles Hstate Hupdated Htrace.
  split_and!; try done.
  by rewrite <-(installs_withoutChdir (trace m')), Htrace, installs_withoutChdir.
Qed.

(** *** The files *)

Lemma stored_readFile path : preserves stored (readFile path).
Proof. intros m. unfold readFile. by destruct (files m !! path) as [[]|]. Qed.

Lemma stored_chdir dir : preserves stored (chdir dir).
Proof. intros m. unfold chdir. by destruct (dirs m dir). Qed.

#[local] Hint Resolve stored_readFile stored_chdir : frame.

Lemma stored_readInstallationStateAsync : preserves stored readInstallationStateAsync.
Proof.
  intros m. unfold readInstallationStateAsync.
  pose proof (stored_readFile (path_join (root m) STATE_FILE) m) as H.
  by destruct (readFile _ m) as [[?|[]] ?].
Qed.

Lemma stored_readPackageListAsync : preserves stored readPackageListAsync.
Proof.
  intros m. unfold readPackageListAsync.
  pose proof (stored_readFile (path_join (root m) CONFIG_FILE) m) as H.
  by destruct (readFile _ m) as [[?|[]] ?].
Qed.

Lemma stored_readShrinkwrapAsync name : preserves stored (readShrinkwrapAsync name).
Proof.
  intros m. unfold readShrinkwrapAsync.
  pose proof (stored_readFile
                (path_resolve (cwd m) [root m; name; "npm-shrinkwrap.json"]) m) as H.
  by destruct (readFile _ m) as [[?|[]] ?].
Qed.

Lemma stored_readPackageDepsAsync name : preserves stored (readPackageDepsAsync name).
Proof. unfold readPackageDepsAsync. frame. Qed.

Lemma stored_filterLocalDeps name deps : preserves stored (filterLocalDeps name deps).
Proof.
  intros m. unfold filterLocalDeps, chdir.
  destruct (dirs m (path_resolve (cwd m) [root m; name])); [|done].
  simpl. by destruct (dirs m (cwd m)).
Qed.

Lemma stored_readPackageChecksumAsync packagePath :
  preserves stored (readPackageChecksumAsync packagePath).
Proof. unfold readPackageChecksumAsync. frame. Qed.

#[local] Hint Resolve stored_readShrinkwrapAsync stored_readPackageDepsAsync
  stored_filterLocalDeps stored_readPackageChecksumAsync : frame.

Lemma stored_readUnversionedDepChecksumsAsync name deps :
  preserves stored (readUnversionedDepChecksumsAsync name deps).
Proof. unfold readUnversionedDepChecksumsAsync. frame. Qed.

#[local] Hint Resolve stored_readUnversionedDepChecksumsAsync : frame.

Lemma stored_readPackageInstallationState name :
  preserves stored (readPackageInstallationState name).
Proof. unfold readPackageInstallationState. frame. Qed.

Lemma stored_execNpmInstallAsync packagePath :
  preserves stored (execNpmInstallAsync packagePath).
Proof. by intros m. Qed.

#[local] Hint Resolve stored_readPackageInstallationState stored_execNpmInstallAsync : frame.

Lemma stored_updatePackageAsync name cacheBreaker arg :
  preserves stored (updatePackageAsync name cacheBreaker arg).
Proof. unfold updatePackageAsync. frame. Qed.

Lemma stored_removeNodeModulesDirAsync name :
  preserves stored (removeNodeModulesDirAsync name).
Proof. unfold removeNodeModulesDirAsync. frame. Qed.

#[local] Hint Resolve stored_updatePackageAsync stored_removeNodeModulesDirAsync : frame.

Lemma stored_updatePackageIfNeededAsync name cacheBreaker :
  preserves stored (updatePackageIfNeededAsync name cacheBreaker).
Proof. unfold updatePackageIfNeededAsync. frame. Qed.

Lemma stored_resetTask name cacheBreaker : preserves stored (resetTask name cacheBreaker).
Proof.
  unfold resetTask. apply preserves_bind; [|intros ?; apply stored_updatePackageAsync].
  intros m. apply stored_readPackageInstallationState.
Qed.

Lemma preserves_promiseAll {B} (f : Machine -> B) (tasks : list (M unit)) :
  Forall (preserves f) tasks -> preserves f (promiseAll tasks).
Proof.
  induction 1 as [|t tasks Ht _ IH]; [by intros m|]. intros m. simpl.
  specialize (Ht m). destruct (t m) as [r m1].
  specialize (IH m1). destruct (promiseAll tasks m1) as [r' m2].
  simpl in *. congruence.
Qed.

Lemma stored_packageTasks st packages : Forall (preserves stored) (packageTasks st packages).
Proof.
  unfold packageTasks. destruct (mapPackages packages) as [entries|].
  - destruct (negb _); apply Forall_forall; intros t (kv & -> & _)%list_elem_of_fmap.
    + apply stored_resetTask.
    + apply stored_updatePackageIfNeededAsync.
  - constructor; [apply preserves_throw|constructor].
Qed.

Lemma stored_loading :
  preserves stored (promiseAll2 readInstallationStateAsync readPackageListAsync).
Proof.
  intros m. unfold promiseAll2.
  pose proof (stored_readInstallationStateAsync m) as H1.
  destruct (readInstallationStateAsync m) as [ra m1].
  pose proof (stored_readPackageListAsync m1) as H2.
  destruct (readPackageListAsync m1) as [rb m2]. simpl in *. congruence.
Qed.

Lemma state_file_only_bind {A} (c : M A) (k : A -> M unit) :
  preserves stored c -> (forall a, state_file_only (k a)) -> state_file_only (bind c k).
Proof.
  intros Hc Hk m. unfold bind. specialize (Hc m).
  destruct (c m) as [[a|e] m1]; simpl in *; [|by injection Hc].
  specialize (Hk a m1). injection Hc as Hf Hr. by rewrite Hf, Hr in Hk.
Qed.

Lemma state_file_only_throw e : state_file_only (throw e).
Proof. by intros m. Qed.

Lemma state_file_only_write st : state_file_only (writeInstallationStateAsync st).
Proof. intros m. simpl. by eexists. Qed.

Lemma state_file_only_installAsync : state_file_only installAsync.
Proof.
  unfold installAsync. apply state_file_only_bind; [apply stored_loading|].
  intros [st packages]. cbn [fst snd].
  apply state_file_only_bind; [by apply preserves_modify|]. intros _.
  assert (preserves stored (promiseAll (packageTasks st packages))) as Htasks
    by apply preserves_promiseAll, stored_packageTasks.
  destruct st; try apply state_file_only_throw;
    (apply state_file_only_bind; [exact Htasks|]; intros _;
     apply state_file_only_bind; [apply preserves_reads|]; intros updated;
     apply state_file_only_bind;
       [destruct (negb (isEmpty updated));
        [by apply preserves_modify|apply preserves_ret]|]; intros _;
     apply state_file_only_bind; [apply preserves_lift|]; intros st';
     apply state_file_only_bind; [by apply preserves_modify|]; intros _;
     apply state_file_only_write).
Qed.


End Frames.

(** Scenario A, where the working directory exists. *)
Lemma fingerprint_reads_only_witness :
  dirs scenarioA (cwd scenarioA) = true
  /\ (let m' := snd (@readPackageInstallationState demoPlatform "pkgA" scenarioA) in
      files m' = files scenarioA /\ cwd m' = cwd scenarioA
      /\ state m' = state scenarioA
      /\ updatedPackages m' = updatedPackages scenarioA
      /\ withoutChdir (trace m') = withoutChdir (trace scenarioA)
      /\ installs (trace m') = installs (trace scenarioA)).
Proof.
  split; [reflexivity|].
  apply (@fingerprint_reads_only demoPlatform scenarioA "pkgA"). reflexivity.
Defined.

(** ** The reset branch *)
Section Reset.
Context {P : Platform}.

Lemma updatePackageAsync_run (m : Machine) (name : string) (cacheBreaker : value)
    (arg : installationStateArg) :
  let packagePath := path_resolve (cwd m) [root m; name] in
  let run := updatePackageAsync name cacheBreaker arg m in
  fst run = (if npmExit m packagePath then Ok tt else Err InstallFailed)
  /\ setting (snd run) = setting m /\ cwd (snd run) = cwd m
  /\ state (snd run) = state m
  /\ installs (trace (snd run)) = installs (trace m) ++ [packagePath]
  /\ updatedPackages (snd run)
     = if npmExit m packagePath
       then set_prop name (VObj (set_prop "cacheBreaker" cacheBreaker (spread arg)))
              (updatedPackages m)
       else updatedPackages m.
Proof.
  intros packagePath run. subst run.
  unfold updatePackageAsync, bind, reads, modify, execNpmInstallAsync. simpl.
  fold packagePath. destruct (npmExit m packagePath); simpl;
    rewrite !installs_app; by rewrite ?app_nil_r, <-?app_assoc.
Qed.

Lemma resetTask_run (m : Machine) (name : string) (cacheBreaker : value) :
  dirs m (cwd m) = true ->
  let packagePath := path_resolve (cwd m) [root m; name] in
  let run := resetTask name cacheBreaker m in
  fst run = (if npmExit m packagePath then Ok tt else Err InstallFailed)
  /\ setting (snd run) = setting m /\ cwd (snd run) = cwd m
  /\ installs (trace (snd run)) = installs (trace m) ++ [packagePath].
Proof.
  intros Hd packagePath run. subst run packagePath.
  pose proof (quiet_readPackageInstallationState name m Hd) as Hq.
  unfold resetTask, notAwaited, bind. simpl.
  set (m1 := snd (readPackageInstallationState name m)) in *.
  unfold surroundings, setting in Hq.
  injection Hq as Hroot Hforce Hdirs Hchildren Hcontents Hnpm Hcwd _ _ _ Htrace.
  destruct (updatePackageAsync_run m1 name cacheBreaker NotAwaited)
    as (Hr & Hs & Hc & _ & Hi & _).
  rewrite Hr, Hs, Hc, Hi. unfold setting.
  rewrite Hroot, Hforce, Hdirs, Hchildren, Hcontents, Hnpm, Hcwd.
  split_and!; try done.
  by rewrite <-(installs_withoutChdir (trace m1)), Htrace, installs_withoutChdir.
Qed.

Lemma forallb_pointwise {A} (f g : A -> bool) (l : list A) :
  (forall x, f x = g x) -> forallb f l = forallb g l.
Proof. intros H. induction l as [|x l IH]; simpl; [done|]. by rewrite H, IH. Qed.

Lemma resetTasks_run (m : Machine) (entries : props) :
  dirs m (cwd m) = true ->
  let run := promiseAll (map (fun kv => resetTask (fst kv) (snd kv)) entries) m in
  fst run = (if forallb (fun kv => npmExit m (packagePathOf m kv)) entries
             then Ok tt else Err InstallFailed)
  /\ setting (snd run) = setting m /\ cwd (snd run) = cwd m
  /\ installs (trace (snd run)) = installs (trace m) ++ map (packagePathOf m) entries.
Proof.
  revert m. induction entries as [|[name cacheBreaker] entries IH]; intros m Hd.
  { simpl. by rewrite app_nil_r. }
  cbn [map promiseAll fst snd forallb].
  destruct (resetTask_run m name cacheBreaker Hd) as (Hr & Hs & Hc & Hi).
  destruct (resetTask name cacheBreaker m) as [r m1]. cbn [fst snd] in *.
  assert (dirs m1 (cwd m1) = true) as Hd1.
  { unfold setting in Hs. injection Hs as _ _ Hdirs _ _ _. by rewrite Hdirs, Hc. }
  destruct (IH m1 Hd1) as (Hr' & Hs' & Hc' & Hi').
  destruct (promiseAll _ m1) as [r' m2]. cbn [fst snd] in *.
  assert (forall kv, packagePathOf m1 kv = packagePathOf m kv) as Hpath.
  { intros kv. unfold packagePathOf, setting in *. injection Hs as Hroot _.
    by rewrite Hroot, Hc. }
  assert (npmExit m1 = npmExit m) as Hnpm.
  { unfold setting in Hs. by injection Hs. }
  split_and!.
  - rewrite (forallb_pointwise (fun kv => npmExit m1 (packagePathOf m1 kv))
               (fun kv => npmExit m (packagePathOf m kv))) in Hr'
      by (intros kv; by rewrite Hnpm, Hpath).
    subst r r'. change (packagePathOf m (name, cacheBreaker))
      with (path_resolve (cwd m) [root m; name]).
    destruct (npmExit m (path_resolve (cwd m) [root m; name])),
      (forallb (fun kv => npmExit m (packagePathOf m kv)) entries); done.
  - congruence.
  - congruence.
  - rewrite Hi', Hi, <-app_assoc. cbn [map app]. unfold packagePathOf at 3. cbn [fst].
    do 2 f_equal. apply map_ext. apply Hpath.
Qed.

Lemma loading_run (m : Machine) :
  let run := promiseAll2 readInstallationStateAsync readPackageListAsync m in
  fst run = together pair (fst (readInstallationStateAsync m)) (fst (readPackageListAsync m))
  /\ setting (snd run) = setting m /\ cwd (snd run) = cwd m
  /\ files (snd run) = files m
  /\ updatedPackages (snd run) = updatedPackages m
  /\ installs (trace (snd run)) = installs (trace m).
Proof.
  simpl. unfold promiseAll2.
  pose proof (readInstallationStateAsync_reads_only m) as Hs.
  destruct (readInstallationStateAsync m) as [ra ma]. simpl in Hs. subst ma.
  unfold readPackageListAsync, readFile.
  destruct (files m !! _) as [[]|]; simpl; rewrite ?installs_app, ?app_nil_r; done.
Qed.


End Reset.


(** ** The force flag *)
Section Force.
Context {P : Platform}.

(** With the force flag set, a package whose installation state can be
    read is installed whatever the state records for it: its node_modules
    directory is removed first, the install runs, and what is recorded for
    the package is its installation state followed by its token. *)
Theorem force_removes_and_installs (m m1 : Machine) (name : string)
    (cacheBreaker v : value) :
  forceInstallation m = true ->
  readPackageInstallationState name m = (Ok v, m1) ->
  npmExit m1 (path_resolve (cwd m1) [root m1; name]) = true ->
  let run := updatePackageIfNeededAsync name cacheBreaker m in
  fst run = Ok tt
  /\ trace (snd run)
     = trace m1 ++ [Rimraf (path_resolve (cwd m1) [root m1; name; "node_modules"]);
                    LogRemoved name; LogInstalling name;
                    Exec (path_resolve (cwd m1) [root m1; name]) true;
                    LogFinished name]
  /\ exists deps sums shrinkwrap,
       v = installationState deps sums shrinkwrap /\
       lookup_prop name (updatedPackages (snd run))
       = Some (VObj [("dependencies", deps);
                     ("unversionedDependencyChecksums", sums);
                     ("shrinkwrap", shrinkwrap);
                     ("cacheBreaker", cacheBreaker)]).
Proof.
  intros Hforce Hread Hnpm run. subst run.
  destruct (readPackageInstallationState_shape _ _ _ _ Hread)
    as (deps & sums & shrinkwrap & ->).
  assert (forceInstallation m1 = true) as Hforce1.
  { pose proof (keeps_readPackageInstallationState name m) as Hk.
    rewrite Hread in Hk. unfold setting in Hk. simpl in Hk. congruence. }
  unfold updatePackageIfNeededAsync, bind. rewrite Hread.
  unfold reads. rewrite Hforce1.
  unfold removeNodeModulesDirAsync, updatePackageAsync, bind, reads, modify,
    execNpmInstallAsync. simpl.
  rewrite Hnpm. simpl. split; [done|]. split.
  - by rewrite <-!app_assoc.
  - eexists _, _, _. split; [done|]. apply lookup_set_prop_eq.
Qed.

End Force.

Lemma force_removes_and_installs_witness :
  let m := scenarioForced in
  let m1 := snd (@readPackageInstallationState demoPlatform "pkgA" m) in
  let v := installationState depsA (VObj []) VUndef in
  forceInstallation m = true
  /\ @readPackageInstallationState demoPlatform "pkgA" m = (Ok v, m1)
  /\ npmExit m1 (@path_resolve demoPlatform (cwd m1) [root m1; "pkgA"]) = true
  /\ (let run := @updatePackageIfNeededAsync demoPlatform "pkgA" (VNum 1) m in
      fst run = Ok tt
      /\ trace (snd run)
         = trace m1
           ++ [Rimraf (@path_resolve demoPlatform (cwd m1) [root m1; "pkgA"; "node_modules"]);
               LogRemoved "pkgA"; LogInstalling "pkgA";
               Exec (@path_resolve demoPlatform (cwd m1) [root m1; "pkgA"]) true;
               LogFinished "pkgA"]
      /\ exists deps sums shrinkwrap,
           v = installationState deps sums shrinkwrap /\
           lookup_prop "pkgA" (updatedPackages (snd run))
           = Some (VObj [("dependencies", deps);
                         ("unversionedDependencyChecksums", sums);
                         ("shrinkwrap", shrinkwrap);
                         ("cacheBreaker", VNum 1)])).
Proof.
  cbv zeta. split; [reflexivity|]. split; [vm_compute; reflexivity|].
  split; [vm_compute; reflexivity|].
  apply (@force_removes_and_installs demoPlatform scenarioForced
           (snd (@readPackageInstallationState demoPlatform "pkgA" scenarioForced))
           "pkgA" (VNum 1) (installationState depsA (VObj []) VUndef));
    vm_compute; reflexivity.
Defined.

(** ** The manifest *)

Lemma lookup_assign {A} (k : string) (target source : list (string * A)) :
  NoDup (keys source) ->
  lookup_prop k (assign target source)
  = match lookup_prop k source with
    | Some v => Some v
    | None => lookup_prop k target
    end.
Proof.
  unfold assign. revert target.
  induction source as [|[k1 v1] source IH]; intros target Hnd; [done|].
  apply NoDup_cons in Hnd as [Hk1 Hnd]. cbn [fold_left fst snd].
  rewrite (IH _ Hnd). simpl.
  destruct (String.eqb_spec k k1) as [->|Hne].
  - destruct (lookup_prop k1 source) as [v|] eqn:Hl.
    + exfalso. apply Hk1. apply list_elem_of_In.
      apply lookup_prop_In in Hl. by apply (in_map fst) in Hl.
    + apply lookup_set_prop_eq.
  - by rewrite (lookup_set_prop_ne k k1).
Qed.

Section Manifest.
Context {P : Platform}.

(** [readPackageDepsAsync] merges the two dependency fields of a manifest:
    a name declared under [devDependencies] takes the specifier given
    there, any other name the one under [dependencies], and a field that
    is absent contributes nothing.  The method changes nothing. *)
Theorem readPackageDepsAsync_merges (m : Machine) (name : string) (packageJSON : value) :
  files m !! path_resolve (cwd m) [root m; name; "package.json"]
    = Some (Json packageJSON) ->
  packageJSON <> VNull ->
  let deps := ownEntries (field packageJSON "dependencies") in
  let devDeps := ownEntries (field packageJSON "devDependencies") in
  NoDup (keys deps) -> NoDup (keys devDeps) ->
  exists packageDeps,
    readPackageDepsAsync name m = (Ok (VObj packageDeps), m) /\
    forall dep,
      lookup_prop dep packageDeps
      = match lookup_prop dep devDeps with
        | Some version => Some version
        | None => lookup_prop dep deps
        end.
Proof.
  intros Hfile Hnull deps devDeps Hd Hdev.
  exists (assign (assign [] deps) devDeps). split.
  - unfold readPackageDepsAsync, bind, reads, readFile, lift. simpl.
    rewrite Hfile. simpl. by destruct packageJSON.
  - intros dep. rewrite (lookup_assign dep _ devDeps Hdev).
    destruct (lookup_prop dep devDeps); [done|].
    rewrite (lookup_assign dep [] deps Hd). by destruct (lookup_prop dep deps).
Qed.

(** A manifest that is missing, unreadable, not JSON or [null] is fatal:
    [readPackageDepsAsync] rejects, where [readShrinkwrapAsync] takes a
    missing lockfile for no lockfile. *)
Theorem manifest_is_required (m : Machine) (name : string) :
  match files m !! path_resolve (cwd m) [root m; name; "package.json"] with
  | None =>
      fst (readPackageDepsAsync name m) = Err ENOENT /\
      fst (readPackageInstallationState name m) = Err ENOENT
  | Some Unreadable => fst (readPackageDepsAsync name m) = Err EIO
  | Some Malformed => fst (readPackageDepsAsync name m) = Err SyntaxError
  | Some (Json VNull) => fst (readPackageDepsAsync name m) = Err TypeError
  | Some (Json _) => is_ok (fst (readPackageDepsAsync name m)) = true
  end
  /\ fst (readShrinkwrapAsync name m)
     = match files m !! path_resolve (cwd m) [root m; name; "npm-shrinkwrap.json"] with
       | None => Ok VUndef
       | Some Unreadable => Err EIO
       | Some Malformed => Err SyntaxError
       | Some (Json shrinkwrap) => Ok shrinkwrap
       end.
Proof.
  split.
  - unfold readPackageInstallationState, readPackageDepsAsync, bind, reads, readFile,
      lift. simpl.
    destruct (files m !! _) as [[v| |]|]; try done. by destruct v.
  - unfold readShrinkwrapAsync, readFile.
    by destruct (files m !! _) as [[v| |]|].
Qed.

End Manifest.

Lemma readPackageDepsAsync_merges_witness :
  files scenarioBoth
    !! @path_resolve demoPlatform (cwd scenarioBoth) [root scenarioBoth; "pkgA"; "package.json"]
    = Some (Json manifestBoth)
  /\ manifestBoth <> VNull
  /\ NoDup (keys (ownEntries (field manifestBoth "dependencies")))
  /\ NoDup (keys (ownEntries (field manifestBoth "devDependencies")))
  /\ exists packageDeps,
       @readPackageDepsAsync demoPlatform "pkgA" scenarioBoth
         = (Ok (VObj packageDeps), scenarioBoth) /\
       forall dep,
         lookup_prop dep packageDeps
         = match lookup_prop dep (ownEntries (field manifestBoth "devDependencies")) with
           | Some version => Some version
           | None => lookup_prop dep (ownEntries (field manifestBoth "dependencies"))
           end.
Proof.
  split; [vm_compute; reflexivity|]. split; [discriminate|].
  split; [apply (bool_decide_unpack _); vm_compute; reflexivity|].
  split; [apply (bool_decide_unpack _); vm_compute; reflexivity|].
  apply (@readPackageDepsAsync_merges demoPlatform scenarioBoth "pkgA" manifestBoth).
  - vm_compute. reflexivity.
  - discriminate.
  - apply (bool_decide_unpack _). vm_compute. reflexivity.
  - apply (bool_decide_unpack _). vm_compute. reflexivity.
Defined.

(** At the manifest with [lodash] in both fields, the development
    specifier wins. *)
Example manifestBoth_lodash :
  fst (@readPackageDepsAsync demoPlatform "pkgA" scenarioBoth)
  = Ok (VObj [("lodash", VStr "^4.0.0"); ("left-pad", VStr "1.0.0");
              ("mocha", VStr "^2.0.0")]).
Proof. vm_compute. reflexivity. Qed.

(** ** Which dependencies are local *)

Lemma In_set_prop {A} (k k' : string) (v v' : A) (o : list (string * A)) :
  In (k, v) (set_prop k' v' o) -> (k, v) = (k', v') \/ In (k, v) o.
Proof.
  induction o as [|[k1 v1] o IH]; simpl.
  - intros [[= <- <-]|[]]. by left.
  - destruct (String.eqb_spec k' k1) as [->|Hne]; simpl.
    + intros [[= <- <-]|?]; [by left|by right; right].
    + intros [?|[?|?]%IH]; [right; by left|by left|by right; right].
Qed.

Lemma keys_set_prop {A} (k k' : string) (v' : A) (o : list (string * A)) :
  In k (keys (set_prop k' v' o)) <-> k = k' \/ In k (keys o).
Proof.
  unfold keys. induction o as [|[k1 v1] o IH]; simpl.
  - split; [intros [<-|[]]; by left|intros [->|[]]; by left].
  - destruct (String.eqb_spec k' k1) as [->|Hne]; simpl.
    + split; [intros [<-|?]; [by left|by right; right]
             |intros [->|[?|?]]; [by left|by left|by right]].
    + rewrite IH. split.
      * intros [?|[?|?]]; [right; by left|by left|by right; right].
      * intros [?|[?|?]]; [right; by left|by left|right; by right].
Qed.

Section Local.
Context {P : Platform}.

Lemma classify_sound (dir : string) (pairs : props) (acc local : list (string * string)) :
  classify dir pairs acc = Ok local ->
  forall dep spec, In (dep, spec) local ->
  In (dep, spec) acc \/ exists version, In (dep, version) pairs /\ isLocal dir dep version spec.
Proof.
  revert acc. induction pairs as [|[dep1 version1] pairs IH]; intros acc H dep spec Hin.
  { injection H as ->. by left. }
  simpl in H.
  destruct (npmPackageArg dir _) as [d|] eqn:Hd; [|discriminate].
  destruct (String.eqb_spec (dtype d) "local") as [Hl|_].
  - destruct (IH _ H dep spec Hin) as [[[= -> ->]|?]%In_set_prop|(v & ? & ?)];
      [right|by left|right].
    + exists version1. split; [by left|]. by exists d.
    + exists v. split; [by right|done].
  - destruct (IH _ H dep spec Hin) as [?|(v & ? & ?)]; [by left|right].
    exists v. split; [by right|done].
Qed.

Lemma classify_complete (dir : string) (pairs : props) (acc local : list (string * string)) :
  classify dir pairs acc = Ok local ->
  forall dep,
    (In dep (keys acc) \/ exists version spec, In (dep, version) pairs /\
                                               isLocal dir dep version spec) ->
    In dep (keys local).
Proof.
  revert acc. induction pairs as [|[dep1 version1] pairs IH]; intros acc H dep Hin.
  { injection H as <-. destruct Hin as [?|(? & ? & [] & _)]; done. }
  simpl in H.
  destruct (npmPackageArg dir _) as [d|] eqn:Hd; [|discriminate].
  destruct (String.eqb_spec (dtype d) "local") as [Hl|Hl]; apply (IH _ H); clear IH H.
  - destruct Hin as [?|(v & spec & [[= -> ->]|?] & ?)].
    + left. apply keys_set_prop. by right.
    + left. apply keys_set_prop. by left.
    + right. by exists v, spec.
  - destruct Hin as [?|(v & spec & [[= -> ->]|?] & Hloc)].
    + by left.
    + destruct Hloc as (d' & Hd' & ? & _). congruence.
    + right. by exists v, spec.
Qed.

(** [filterLocalDeps] keeps exactly the dependencies that npm-package-arg,
    resolving from the package's directory, reports as local, each with
    the path it reports; a dependency of any other kind is left out. *)
Theorem filterLocalDeps_selects_local (m : Machine) (name : string) (deps : value)
    (localDeps : list (string * string)) :
  fst (filterLocalDeps name deps m) = Ok localDeps ->
  let packagePath := path_resolve (cwd m) [root m; name] in
  (forall dep spec, In (dep, spec) localDeps ->
     exists version, In (dep, version) (toPairsIn deps) /\
                     isLocal packagePath dep version spec)
  /\ (forall dep version spec,
        In (dep, version) (toPairsIn deps) -> isLocal packagePath dep version spec ->
        In dep (keys localDeps)).
Proof.
  intros Hrun packagePath. unfold filterLocalDeps, chdir in Hrun.
  fold packagePath in Hrun.
  destruct (dirs m packagePath); [|discriminate]. simpl in Hrun.
  destruct (dirs m (cwd m)); [|discriminate]. simpl in Hrun. split.
  - intros dep spec Hin.
    by destruct (classify_sound _ _ _ _ Hrun dep spec Hin) as [[]|?].
  - intros dep version spec Hin Hloc.
    apply (classify_complete _ _ _ _ Hrun). right. by exists version, spec.
Qed.

End Local.

Lemma filterLocalDeps_selects_local_witness :
  fst (@filterLocalDeps demoPlatform "pkgA" depsWithSibling scenarioA)
    = Ok [("sibling", "/ws/pkgA/../pkgB")]
  /\ ((forall dep spec, In (dep, spec) [("sibling", "/ws/pkgA/../pkgB")] ->
         exists version, In (dep, version) (toPairsIn depsWithSibling) /\
                         @isLocal demoPlatform
                           (@path_resolve demoPlatform (cwd scenarioA) [root scenarioA; "pkgA"])
                           dep version spec)
      /\ (forall dep version spec,
            In (dep, version) (toPairsIn depsWithSibling) ->
            @isLocal demoPlatform
              (@path_resolve demoPlatform (cwd scenarioA) [root scenarioA; "pkgA"])
              dep version spec ->
            In dep (keys [("sibling", "/ws/pkgA/../pkgB")]))).
Proof.
  split; [vm_compute; reflexivity|].
  apply (@filterLocalDeps_selects_local demoPlatform scenarioA "pkgA" depsWithSibling).
  vm_compute. reflexivity.
Defined.

(** ** The detector, called with its five arguments *)

Lemma vsize_elem (x : value) (xs : list value) : In x xs -> vsize x < vsize (VArr xs).
Proof.
  simpl. induction xs as [|x1 xs IH]; intros []; simplify_eq; [lia|].
  specialize (IH ltac:(done)). lia.
Qed.

Lemma lookup_prop_NoDup {A} (k : string) (v : A) (o : list (string * A)) :
  NoDup (keys o) -> In (k, v) o -> lookup_prop k o = Some v.
Proof.
  induction o as [|[k1 v1] o IH]; intros Hnd Hin; [done|].
  apply NoDup_cons in Hnd as [Hk1 Hnd]. simpl.
  destruct Hin as [[= -> ->]|Hin]; [by rewrite String.eqb_refl|].
  destruct (String.eqb_spec k k1) as [->|Hne]; [|by apply IH].
  exfalso. apply Hk1. apply list_elem_of_In. by apply (in_map fst) in Hin.
Qed.

(** [isEqual] holds between a parsed document and itself. *)
Lemma isEqual_refl (v : value) : wellFormed v = true -> isEqual v v = true.
Proof.
  remember (vsize v) as n eqn:Hn. revert v Hn.
  induction (lt_wf n) as [n _ IH]. intros v -> Hwf.
  destruct v as [| |b|z|s|xs|o]; simpl; try done.
  - by destruct b.
  - apply Z.eqb_refl.
  - apply String.eqb_refl.
  - assert (forall x, In x xs -> isEqual x x = true) as Helems.
    { intros x Hx. apply (IH (vsize x)); [by apply vsize_elem|done|].
      simpl in Hwf. rewrite forallb_forall in Hwf. by apply Hwf. }
    clear IH Hwf. induction xs as [|x xs IHxs]; [done|].
    rewrite (Helems x) by (by left). apply IHxs. intros y Hy. apply Helems. by right.
  - simpl in Hwf. apply andb_prop in Hwf as [Hnd Hwf].
    apply bool_decide_eq_true in Hnd. rewrite forallb_forall in Hwf.
    rewrite Nat.eqb_refl. simpl.
    assert (forall l, (forall kv, In kv l -> In kv o) ->
              (fix entries (l : props) : bool :=
                 match l with
                 | [] => true
                 | (k, v) :: l' =>
                     match lookup_prop k o with
                     | Some w => isEqual v w
                     | None => false
                     end && entries l'
                 end) l = true) as Hloop.
    { induction l as [|[k v] l IHl]; intros Hsub; [done|].
      rewrite (lookup_prop_NoDup k v o Hnd) by (apply Hsub; by left).
      rewrite (IH (vsize v)); [|by eapply vsize_entry, Hsub; left|done|].
      - apply IHl. intros kv Hkv. apply Hsub. by right.
      - apply (Hwf (k, v)). apply Hsub. by left. }
    by apply Hloop.
Qed.

Lemma strict_eq_refl (c : value) : isScalar c = true -> strict_eq c c = true.
Proof.
  destruct c as [| |b|z|s| |]; simpl; try done.
  - by destruct b.
  - intros _. apply Z.eqb_refl.
  - intros _. apply String.eqb_refl.
Qed.

Section FiveArguments.
Context {P : Platform}.

(** Called with all five arguments, the detector does skip a package that
    has not changed: when the state records for the package the declared
    token (a scalar), the dependencies and the checksums just read, and
    the package has no lockfile, the answer is false.  (The run itself
    never calls it this way.) *)
Theorem packageNeedsUpdate_skips_unchanged (m : Machine) (name : string)
    (cacheBreaker deps unversionedDepChecksums shrinkwrap : value) :
  let packageState := get (field (state m) "packages") name in
  truthy packageState = true ->
  isScalar cacheBreaker = true ->
  field packageState "cacheBreaker" = cacheBreaker ->
  field packageState "dependencies" = deps ->
  field packageState "unversionedDependencyChecksums" = unversionedDepChecksums ->
  wellFormed deps = true ->
  wellFormed unversionedDepChecksums = true ->
  truthy shrinkwrap = false ->
  packageNeedsUpdate m name cacheBreaker deps unversionedDepChecksums shrinkwrap = false.
Proof.
  intros packageState Ht Hs Hcb Hdeps Hsums Hwd Hws Hsw.
  unfold packageNeedsUpdate, cacheBreakerStale. fold packageState.
  rewrite Ht, Hcb, (strict_eq_refl _ Hs), Hsw, Hdeps, Hsums.
  by rewrite (isEqual_refl _ Hwd), (isEqual_refl _ Hws).
Qed.

End FiveArguments.

Lemma packageNeedsUpdate_skips_unchanged_witness :
  let m := scenarioLater in
  let packageState := @get demoPlatform (field (state m) "packages") "pkgA" in
  truthy packageState = true
  /\ isScalar (VNum 1) = true
  /\ field packageState "cacheBreaker" = VNum 1
  /\ field packageState "dependencies" = depsA
  /\ field packageState "unversionedDependencyChecksums" = VObj []
  /\ wellFormed depsA = true
  /\ wellFormed (VObj []) = true
  /\ truthy VUndef = false
  /\ @packageNeedsUpdate demoPlatform m "pkgA" (VNum 1) depsA (VObj []) VUndef = false.
Proof.
  cbv zeta. do 8 (split; [vm_compute; reflexivity|]).
  apply (@packageNeedsUpdate_skips_unchanged demoPlatform scenarioLater "pkgA");
    vm_compute; reflexivity.
Defined.

(** ** What the run records *)

Lemma lookup_delete_prop {A} (k k' : string) (o : list (string * A)) :
  lookup_prop k (delete_prop k' o)
  = if String.eqb k k' then None else lookup_prop k o.
Proof.
  induction o as [|[k1 v1] o IH]; simpl; [by destruct (String.eqb k k')|].
  destruct (String.eqb_spec k' k1) as [->|Hne]; simpl.
  - rewrite IH. by destruct (String.eqb k k1).
  - rewrite IH. destruct (String.eqb_spec k k') as [->|Hne'].
    + by destruct (String.eqb_spec k' k1).
    + done.
Qed.

Lemma existsb_keys {A} (k : string) (o : list (string * A)) :
  existsb (String.eqb k) (keys o) = hasOwn k o.
Proof.
  unfold hasOwn. induction o as [|[k1 v1] o IH]; simpl; [done|].
  by destruct (String.eqb k k1).
Qed.

Lemma lookup_prop_all_None {A} (o : list (string * A)) :
  (forall k, lookup_prop k o = None) -> o = [].
Proof.
  destruct o as [|[k v] o]; [done|]. intros H. specialize (H k).
  simpl in H. by rewrite String.eqb_refl in H.
Qed.

(** The pruning loop over a config that is an object: it completes, and it
    deletes the visited names the config does not declare. *)
Lemma prune_lookup (cfg : props) (names : list string) (sp : props) :
  hasOwn "hasOwnProperty" cfg = false ->
  exists out,
    prune (VObj cfg) names sp = Ok out /\
    forall k,
      lookup_prop k out
      = if existsb (String.eqb k) names && negb (hasOwn k cfg)
        then None else lookup_prop k sp.
Proof.
  intros Hcfg. revert sp. induction names as [|name names IH]; intros sp.
  - by exists sp.
  - cbn [prune hasOwnProperty]. rewrite Hcfg.
    destruct (hasOwn name cfg) eqn:Hname.
    + destruct (IH sp) as (out & Hp & Hl). exists out. split; [done|].
      intros k. rewrite Hl. cbn [existsb].
      destruct (String.eqb_spec k name) as [->|Hne]; [|done].
      rewrite Hname. simpl. by rewrite andb_false_r.
    + destruct (IH (delete_prop name sp)) as (out & Hp & Hl). exists out.
      split; [done|]. intros k. rewrite Hl, lookup_delete_prop. cbn [existsb].
      destruct (String.eqb_spec k name) as [->|Hne].
      * rewrite Hname. simpl. by destruct (existsb _ names).
      * done.
Qed.

Section Recording.
Context {P : Platform}.

(** The installation state at the end of a run, for a state and a config
    that are objects: the global cache breaker is the current one, and
    under [packages] a declared package has the entry of this run when it
    was installed in it and the entry the state had before otherwise; a
    package that is not declared has none. *)
Theorem updateInstallationState_merges (o cfg updated : props) :
  hasOwn "hasOwnProperty" cfg = false ->
  NoDup (keys updated) ->
  NoDup (keys (ownEntries (field (VObj o) "packages"))) ->
  exists recorded,
    updateInstallationState (VObj o) (VObj cfg) updated
    = Ok (VObj (set_prop "packages" (VObj recorded)
                  (set_prop "cacheBreaker" CACHE_BREAKER o)))
    /\ forall name,
         lookup_prop name recorded
         = if hasOwn name cfg
           then match lookup_prop name updated with
                | Some entry => Some entry
                | None => lookup_prop name (ownEntries (field (VObj o) "packages"))
                end
           else None.
Proof.
  intros Hcfg Hupdated Hold. unfold updateInstallationState.
  set (merged := assign (assign [] (ownEntries (field (VObj o) "packages"))) updated).
  destruct (prune_lookup cfg (keys merged) merged Hcfg) as (out & -> & Hl).
  exists out. split; [done|]. intros name. rewrite Hl, existsb_keys.
  assert (lookup_prop name merged
          = match lookup_prop name updated with
            | Some entry => Some entry
            | None => lookup_prop name (ownEntries (field (VObj o) "packages"))
            end) as Hmerged.
  { unfold merged. rewrite (lookup_assign _ _ _ Hupdated), (lookup_assign _ _ _ Hold).
    cbn [lookup_prop]. destruct (lookup_prop name updated); [done|].
    by destruct (lookup_prop name (ownEntries _)). }
  destruct (hasOwn name cfg); simpl.
  - by rewrite andb_false_r.
  - rewrite andb_true_r. unfold hasOwn. by destruct (lookup_prop name merged).
Qed.

(** A completed run, looked at from its end. *)
Lemma installAsync_Ok_inv (m m' : Machine) :
  installAsync m = (Ok tt, m') ->
  exists st packages updated st',
    fst (readInstallationStateAsync m) = Ok st
    /\ fst (readPackageListAsync m) = Ok packages
    /\ updateInstallationState st packages updated = Ok st'
    /\ state m' = st'
    /\ files m' !! path_join (root m') STATE_FILE = Some (Json (jsonify st')).
Proof.
  intros Hrun. unfold installAsync in Hrun.
  apply bind_Ok in Hrun as ([st pk] & m1 & Hload & Hrun).
  assert (fst (readInstallationStateAsync m) = Ok st
          /\ fst (readPackageListAsync m) = Ok pk) as [Hst Hpk].
  { unfold promiseAll2 in Hload.
    pose proof (readInstallationStateAsync_reads_only m) as Hs.
    destruct (readInstallationStateAsync m) as [ra ma]. simpl in Hs. subst ma.
    destruct (readPackageListAsync m) as [rb mb].
    injection Hload as Hload _.
    by apply together_Ok in Hload as (? & ? & -> & -> & [= <- <-]). }
  apply bind_Ok in Hrun as ([] & m2 & _ & Hrun). cbn [fst snd] in Hrun.
  assert (exists mt updated st',
            updateInstallationState st pk updated = Ok st' /\
            writeInstallationStateAsync st' (set_state st' mt) = (Ok tt, m'))
    as (mt & updated & st' & Hupd & Hw).
  { destruct st; try discriminate;
      apply bind_Ok in Hrun as ([] & m3 & _ & Hrun);
      apply bind_Ok in Hrun as (updated & m4 & _ & Hrun);
      apply bind_Ok in Hrun as ([] & m5 & _ & Hrun);
      apply bind_Ok in Hrun as (st' & m6 & Hupd & Hrun);
      apply bind_Ok in Hrun as ([] & m7 & Hm & Hrun);
      unfold lift in Hupd; injection Hupd as Hupd <-; try discriminate;
      unfold modify in Hm; injection Hm as <-; eauto. }
  exists st, pk, updated, st'. repeat split; try done.
  - unfold writeInstallationStateAsync, bind, reads, writeJSON, modify in Hw.
    by injection Hw as <-.
  - unfold writeInstallationStateAsync, bind, reads, writeJSON, modify in Hw.
    injection Hw as <-. simpl. apply lookup_insert_eq.
Qed.

(** After a run that completes, the next process reads the state file the
    run wrote, and takes the branch that compares package by package
    exactly when the state the run started from was an object.  A state
    file that holds an array is written back as it was, and every later
    run installs every package again. *)
Theorem completed_run_selects_next_branch (m m' : Machine) (st : value) :
  installAsync m = (Ok tt, m') ->
  fst (readInstallationStateAsync m) = Ok st ->
  exists next,
    fst (readInstallationStateAsync (nextProcess m')) = Ok next
    /\ strict_eq (field next "cacheBreaker") CACHE_BREAKER
       = match st with VObj _ => true | _ => false end.
Proof.
  intros Hrun Hst.
  apply installAsync_Ok_inv in Hrun
    as (st0 & packages & updated & st' & Hst0 & _ & Hupd & _ & Hfile).
  rewrite Hst in Hst0. injection Hst0 as <-.
  exists (jsonify st'). split.
  - unfold readInstallationStateAsync, readFile, nextProcess. simpl. by rewrite Hfile.
  - unfold updateInstallationState in Hupd.
    destruct st as [| | | | |xs|o]; try discriminate;
      destruct (prune packages _ _) as [pruned|]; try discriminate;
      injection Hupd as <-.
    + by destruct xs.
    + rewrite jsonify_obj. simpl.
      rewrite (lookup_jsonify_entries "cacheBreaker" CACHE_BREAKER); [done| |done].
      rewrite lookup_set_prop_ne by done. apply lookup_set_prop_eq.
Qed.

End Recording.

Lemma updateInstallationState_merges_witness :
  let o := [("cacheBreaker", VNum 0);
            ("packages", VObj [("pkgA", VStr "a"); ("pkgB", VStr "b");
                               ("pkgC", VStr "c")])] in
  let cfg := [("pkgA", VNum 1); ("pkgB", VNum 1)] in
  let updated := [("pkgB", VStr "b'")] in
  hasOwn "hasOwnProperty" cfg = false
  /\ NoDup (keys updated)
  /\ NoDup (keys (ownEntries (field (VObj o) "packages")))
  /\ exists recorded,
       updateInstallationState (VObj o) (VObj cfg) updated
       = Ok (VObj (set_prop "packages" (VObj recorded)
                     (set_prop "cacheBreaker" CACHE_BREAKER o)))
       /\ forall name,
            lookup_prop name recorded
            = if hasOwn name cfg
              then match lookup_prop name updated with
                   | Some entry => Some entry
                   | None => lookup_prop name (ownEntries (field (VObj o) "packages"))
                   end
              else None.
Proof.
  cbv zeta. split; [reflexivity|].
  split; [apply (bool_decide_unpack _); vm_compute; reflexivity|].
  split; [apply (bool_decide_unpack _); vm_compute; reflexivity|].
  apply updateInstallationState_merges;
    first [reflexivity | apply (bool_decide_unpack _); vm_compute; reflexivity].
Defined.

Lemma completed_run_selects_next_branch_witness :
  @installAsync demoPlatform scenarioC
    = (Ok tt, snd (@installAsync demoPlatform scenarioC))
  /\ (exists st, fst (@readInstallationStateAsync demoPlatform scenarioC) = Ok st
      /\ exists next,
           fst (@readInstallationStateAsync demoPlatform
                  (nextProcess (snd (@installAsync demoPlatform scenarioC)))) = Ok next
           /\ strict_eq (field next "cacheBreaker") CACHE_BREAKER
              = match st with VObj _ => true | _ => false end).
Proof.
  split; [vm_compute; reflexivity|].
  eexists. split; [vm_compute; reflexivity|].
  apply (@completed_run_selects_next_branch demoPlatform scenarioC);
    vm_compute; reflexivity.
Defined.

(** ** The install lock: no task is left behind *)

Lemma lookup_insert_other (ts : list pc) (i j : nat) (p q : pc) :
  <[i := p]> ts !! j = Some q -> q <> p -> j <> i /\ ts !! j = Some q.
Proof.
  intros H Hne. destruct (decide (j = i)) as [->|Hji].
  - destruct (decide (i < length ts)) as [Hlt|Hge].
    + rewrite list_lookup_insert_eq in H by done. congruence.
    + rewrite list_insert_ge in H by lia.
      apply lookup_lt_Some in H. lia.
  - by rewrite list_lookup_insert_ne in H.
Qed.

Lemma queue_inv_initial (n : nat) : queue_inv (initial n).
Proof. intros j [? _]%lookup_replicate. discriminate. Qed.

Lemma queue_inv_step (r r' : Run) : step r r' -> queue_inv r -> queue_inv r'.
Proof.
  intros Hstep Hq. destruct Hstep as [r i Hi|r i Hi|r i Hi|r i ok Hi|r i ok Hi];
    intros j Hj; simpl in *.
  - apply lookup_insert_other in Hj as [_ Hj]; [by apply Hq|done].
  - unfold acquireAsync in *. destruct (acquired (installLock r)); simpl in *.
    + destruct (decide (j = i)) as [->|Hji].
      * apply elem_of_app. right. by apply list_elem_of_singleton.
      * rewrite list_lookup_insert_ne in Hj by done.
        apply elem_of_app. left. by apply Hq.
    + apply lookup_insert_other in Hj as [_ Hj]; [by apply Hq|done].
  - apply lookup_insert_other in Hj as [_ Hj]; [by apply Hq|done].
  - apply lookup_insert_other in Hj as [_ Hj]; [by apply Hq|done].
  - unfold release in *.
    destruct (waitingResolvers (installLock r)) as [|k rest] eqn:Hk; simpl in *.
    + apply lookup_insert_other in Hj as [_ Hj]; [|done].
      specialize (Hq j Hj). by rewrite Hk in Hq.
    + apply lookup_insert_other in Hj as [Hjk Hj]; [|done].
      apply lookup_insert_other in Hj as [_ Hj]; [|done].
      specialize (Hq j Hj). rewrite Hk in Hq.
      apply elem_of_cons in Hq as [?|?]; done.
Qed.

Lemma queue_inv_reachable (n : nat) (r : Run) : reachable n r -> queue_inv r.
Proof.
  unfold reachable. revert r.
  apply (rtc_ind_r (fun r => queue_inv r) (initial n)); [apply queue_inv_initial|].
  intros r r' _ Hstep Hinv. by apply (queue_inv_step r r').
Qed.

Lemma holder_moves (r : Run) (i : nat) : holding (tasks r) i -> exists r', step r r'.
Proof.
  intros (p & Hp & Hh). destruct p; try discriminate.
  - eexists. by apply (step_exec r i).
  - eexists. by apply (step_settle r i true).
  - eexists. by apply (step_release r i ok).
Qed.

(** The run cannot get stuck: in every state it can reach, as long as some
    task has not come to its end, some task can move.  A task that awaits
    the lock is in its queue, and the task that holds the lock moves on to
    release it. *)
Theorem run_never_deadlocks (n : nat) (r : Run) (i : nat) (p : pc) :
  reachable n r ->
  tasks r !! i = Some p ->
  finished p = false ->
  exists r', step r r'.
Proof.
  intros Hr Hp Hfin.
  pose proof (lock_inv_reachable n r Hr) as [Hu Hf Hh Hw Hn].
  pose proof (queue_inv_reachable n r Hr) as Hq.
  destruct p; try discriminate.
  - eexists. by apply (step_skip r i).
  - specialize (Hq i Hp).
    destruct (acquired (installLock r)) eqn:Ha.
    + destruct (Hh eq_refl) as [j Hj]. by apply (holder_moves r j).
    + destruct (Hf eq_refl) as [_ Hempty]. rewrite Hempty in Hq.
      by apply elem_of_nil in Hq.
  - apply (holder_moves r i). by exists Locked.
  - apply (holder_moves r i). by exists Installing.
  - apply (holder_moves r i). by exists (Settled ok).
Qed.

Lemma remaining_insert (ts : list pc) (i : nat) (p q : pc) :
  ts !! i = Some q ->
  sum_list_with rank (<[i := p]> ts) + rank q = sum_list_with rank ts + rank p.
Proof.
  revert i. induction ts as [|t ts IH]; intros [|i] Hi; simpl in *; try done.
  - injection Hi as ->. lia.
  - specialize (IH i Hi). lia.
Qed.

Lemma remaining_initial (n : nat) : remaining (initial n) = 5 * n.
Proof. unfold remaining, initial. simpl. induction n as [|n IH]; simpl; lia. Qed.

(** Every move brings the run closer to its end: the number of moves the
    tasks have left goes down, so a run of [n] packages ends after at
    most [5 * n] moves. *)
Theorem run_terminates (n : nat) (r r' : Run) :
  reachable n r ->
  step r r' ->
  remaining (initial n) = 5 * n /\ remaining r' < remaining r.
Proof.
  intros Hr Hstep. split.
  { apply remaining_initial. }
  pose proof (lock_inv_reachable n r Hr) as [Hu Hf Hh Hw Hn].
  unfold remaining.
  destruct Hstep as [r i Hi|r i Hi|r i Hi|r i ok Hi|r i ok Hi]; simpl.
  - pose proof (remaining_insert _ i Skipped _ Hi). simpl in *. lia.
  - destruct (snd (acquireAsync i (installLock r))).
    + pose proof (remaining_insert _ i Locked _ Hi). simpl in *. lia.
    + pose proof (remaining_insert _ i Waiting _ Hi). simpl in *. lia.
  - pose proof (remaining_insert _ i Installing _ Hi). simpl in *. lia.
  - pose proof (remaining_insert _ i (Settled ok) _ Hi). simpl in *. lia.
  - pose proof (remaining_insert _ i (Released ok) _ Hi) as Hrel. simpl in Hrel.
    unfold release. destruct (waitingResolvers (installLock r)) as [|k rest] eqn:Hk;
      simpl; [lia|].
    assert (tasks r !! k = Some Waiting) as Hwk by (apply Hw; left).
    assert (k <> i) as Hki by (intros ->; congruence).
    assert (<[i := Released ok]> (tasks r) !! k = Some Waiting) as Hwk'
      by (by rewrite list_lookup_insert_ne).
    pose proof (remaining_insert _ k Locked _ Hwk') as Hwake. simpl in Hwake. lia.
Qed.

Lemma threeTasks_reachable : reachable 3 threeTasks.
Proof.
  unfold reachable.
  eapply rtc_l; [by apply (step_acquire (initial 3) 0)|].
  eapply rtc_l; [by apply (step_acquire _ 1)|].
  eapply rtc_l; [by apply (step_acquire _ 2)|].
  eapply rtc_l; [by apply (step_exec _ 0)|].
  eapply rtc_l; [by apply (step_settle _ 0 false)|].
  eapply rtc_l; [by apply (step_release _ 0 false)|].
  apply rtc_refl.
Defined.

Lemma run_never_deadlocks_witness :
  reachable 3 threeTasks
  /\ tasks threeTasks !! 2 = Some Waiting
  /\ finished Waiting = false
  /\ exists r', step threeTasks r'.
Proof.
  split; [exact threeTasks_reachable|]. split; [reflexivity|]. split; [reflexivity|].
  apply (run_never_deadlocks 3 threeTasks 2 Waiting);
    [exact threeTasks_reachable|reflexivity|reflexivity].
Defined.

Lemma run_terminates_witness :
  let r' := mkRun (installLock threeTasks) (<[1 := Installing]> (tasks threeTasks)) in
  reachable 3 threeTasks
  /\ step threeTasks r'
  /\ remaining (initial 3) = 5 * 3 /\ remaining r' < remaining threeTasks.
Proof.
  cbv zeta. split; [exact threeTasks_reachable|].
  split; [by apply (step_exec threeTasks 1)|].
  apply (run_terminates 3 threeTasks);
    [exact threeTasks_reachable|by apply (step_exec threeTasks 1)].
Defined.

(** ** A config that declares nothing, and the two small commands *)
Section Small.
Context {P : Platform}.

Lemma updateInstallationState_nothing_declared (o updated : props) :
  updateInstallationState (VObj o) (VObj []) updated
  = Ok (VObj (set_prop "packages" (VObj [])
                (set_prop "cacheBreaker" CACHE_BREAKER o))).
Proof.
  unfold updateInstallationState.
  set (merged := assign (assign [] (ownEntries (field (VObj o) "packages"))) updated).
  destruct (prune_lookup [] (keys merged) merged eq_refl) as (out & -> & Hl).
  assert (out = []) as ->; [|done].
  apply lookup_prop_all_None. intros k. rewrite Hl, existsb_keys.
  unfold hasOwn. simpl. by destruct (lookup_prop k merged).
Qed.



(** [cleanAsync] on a root that has a state file, whatever it holds:
    exactly that file is deleted; the state then reads as the empty
    object, for which the next run installs every declared package; and a
    second [cleanAsync] rejects. *)
Theorem cleanAsync_deletes_state_file (m : Machine) (f : file) :
  files m !! path_join (root m) STATE_FILE = Some f ->
  let m' := snd (cleanAsync m) in
  fst (cleanAsync m) = Ok tt
  /\ files m' = delete (path_join (root m) STATE_FILE) (files m)
  /\ readInstallationStateAsync m' = (Ok (VObj []), m')
  /\ strict_eq (field (VObj []) "cacheBreaker") CACHE_BREAKER = false
  /\ fst (cleanAsync m') = Err ENOENT.
Proof.
  intros Hf. unfold cleanAsync, bind, reads, unlink. rewrite Hf. simpl.
  split_and!; try done.
  - unfold readInstallationStateAsync, readFile. simpl. by rewrite lookup_delete_eq.
  - by rewrite lookup_delete_eq.
Qed.

End Small.


Lemma cleanAsync_deletes_state_file_witness :
  let m := scenarioC in
  exists f,
    files m !! @path_join demoPlatform (root m) STATE_FILE = Some f
    /\ let m' := snd (@cleanAsync demoPlatform m) in
       fst (@cleanAsync demoPlatform m) = Ok tt
       /\ files m' = delete (@path_join demoPlatform (root m) STATE_FILE) (files m)
       /\ @readInstallationStateAsync demoPlatform m' = (Ok (VObj []), m')
       /\ strict_eq (field (VObj []) "cacheBreaker") CACHE_BREAKER = false
       /\ fst (@cleanAsync demoPlatform m') = Err ENOENT.
Proof.
  cbv zeta. eexists. split; [vm_compute; reflexivity|].
  eapply (@cleanAsync_deletes_state_file demoPlatform scenarioC);
    vm_compute; reflexivity.
Defined.

(** ** Runs that cannot complete *)
Section Rejections.
Context {P : Platform}.

(** A state file or a config that cannot be read or parsed stops the run
    before any package is looked at: the run rejects, no install command
    is invoked, and no file is written. *)
Theorem load_failure_stops_the_run (m : Machine) :
  is_ok (fst (readInstallationStateAsync m)) = false
  \/ is_ok (fst (readPackageListAsync m)) = false ->
  is_ok (fst (installAsync m)) = false
  /\ installs (trace (snd (installAsync m))) = installs (trace m)
  /\ files (snd (installAsync m)) = files m
  /\ updatedPackages (snd (installAsync m)) = updatedPackages m.
Proof.
  intros Hload.
  destruct (loading_run m) as (Hr0 & _ & _ & Hf0 & Hu0 & Hi0).
  unfold installAsync, bind.
  destruct (promiseAll2 readInstallationStateAsync readPackageListAsync m) as [r0 m1].
  cbn [fst snd] in *.
  assert (is_ok r0 = false) as Hr.
  { subst r0. destruct Hload as [H|H];
      destruct (fst (readInstallationStateAsync m)) as [|[]],
               (fst (readPackageListAsync m)) as [|[]]; done. }
  destruct r0; [done|]. done.
Qed.


End Rejections.

Lemma load_failure_stops_the_run_witness :
  let m := scenarioMalformedConfig in
  (is_ok (fst (@readInstallationStateAsync demoPlatform m)) = false
   \/ is_ok (fst (@readPackageListAsync demoPlatform m)) = false)
  /\ is_ok (fst (@installAsync demoPlatform m)) = false
  /\ installs (trace (snd (@installAsync demoPlatform m))) = installs (trace m)
  /\ files (snd (@installAsync demoPlatform m)) = files m
  /\ updatedPackages (snd (@installAsync demoPlatform m)) = updatedPackages m.
Proof.
  cbv zeta. split; [right; vm_compute; reflexivity|].
  apply (@load_failure_stops_the_run demoPlatform scenarioMalformedConfig).
  right. vm_compute. reflexivity.
Defined.


(** The run on a state file that holds 0: both packages are installed, and
    the run rejects with a type error. *)
Example scenarioNumberState_run :
  fst (@installAsync demoPlatform scenarioNumberState) = Err TypeError
  /\ installs (trace (snd (@installAsync demoPlatform scenarioNumberState)))
     = ["/ws/pkgA"; "/ws/pkgB"].
Proof. split; vm_compute; reflexivity. Qed.

(** ** The checksums of the local dependencies *)

Lemma NoDup_keys_set_prop {A} (k : string) (v : A) (o : list (string * A)) :
  NoDup (keys o) -> NoDup (keys (set_prop k v o)).
Proof.
  induction o as [|[k1 v1] o IH]; simpl; intros Hnd.
  - apply NoDup_singleton.
  - apply NoDup_cons in Hnd as [Hk1 Hnd].
    destruct (String.eqb_spec k k1) as [->|Hne]; simpl.
    + by apply NoDup_cons.
    + apply NoDup_cons. split; [|by apply IH].
      rewrite list_elem_of_In. intros [?|?]%keys_set_prop; [done|].
      apply Hk1. by apply list_elem_of_In.
Qed.

Section LocalChecksums.
Context {P : Platform}.

Lemma classify_NoDup (dir : string) (pairs : props) (acc local : list (string * string)) :
  NoDup (keys acc) -> classify dir pairs acc = Ok local -> NoDup (keys local).
Proof.
  revert acc. induction pairs as [|[dep version] pairs IH]; intros acc Hnd H.
  { by injection H as <-. }
  simpl in H. destruct (npmPackageArg dir _) as [d|]; [|discriminate].
  destruct (String.eqb (dtype d) "local"); [|by apply (IH acc)].
  apply (IH _ (NoDup_keys_set_prop dep (dspec d) acc Hnd) H).
Qed.

(** The checksum depends on the file system and the working directory
    alone. *)
Lemma readPackageChecksumAsync_fst_ext (packagePath : string) (m m' : Machine) :
  children m' = children m -> contents m' = contents m -> cwd m' = cwd m ->
  fst (readPackageChecksumAsync packagePath m')
  = fst (readPackageChecksumAsync packagePath m).
Proof.
  intros Hch Hco Hcwd.
  unfold readPackageChecksumAsync, bind, reads, lift. cbn [fst snd]. rewrite Hch.
  destruct (children m packagePath) as [entries|e]; [|done].
  assert (fileChecksumPromises packagePath entries m'
          = fileChecksumPromises packagePath entries m) as ->.
  { unfold fileChecksumPromises. generalize (@nil (string * result string)).
    induction entries as [|entry entries IH]; intros promises; [done|].
    cbn [fold_left]. rewrite IH, !readFileChecksumAsync_fst. by rewrite Hco, Hcwd. }
  by destruct (promiseProps _).
Qed.

Lemma checksumPromises_fresh (packagePath : string) (pairs : list (string * string))
    (promises : list (string * result string)) (m : Machine) :
  NoDup (keys promises ++ keys pairs) ->
  checksumPromises packagePath pairs promises m
  = promises
    ++ map (fun kv =>
              (fst kv,
               fst (readPackageChecksumAsync
                      (path_resolve (cwd m) [packagePath; snd kv]) m))) pairs.
Proof.
  revert promises. induction pairs as [|[dep depPath] pairs IH]; intros promises Hnd.
  - simpl. by rewrite app_nil_r.
  - cbn [checksumPromises].
    assert (~ In dep (keys promises)) as Hfresh.
    { intros Hin. apply NoDup_app in Hnd as (_ & Hd & _).
      apply (Hd dep); [by apply list_elem_of_In|]. simpl. left. }
    rewrite (set_prop_fresh _ _ _ Hfresh), IH.
    + by rewrite <-app_assoc.
    + unfold keys in *. rewrite map_app. simpl. by rewrite <-app_assoc.
Qed.

(** [readUnversionedDepChecksumsAsync], when the working directory and
    the package directory exist: every local dependency of the package,
    and nothing else, gets the checksum of the directory that its spec
    names relative to the package directory; and when one of these
    checksums rejects or never settles, so does the whole. *)
Theorem local_dependencies_are_checksummed (m : Machine) (name : string)
    (deps : value) (localDeps : list (string * string)) :
  let packagePath := path_resolve (cwd m) [root m; name] in
  dirs m (cwd m) = true ->
  dirs m packagePath = true ->
  classify packagePath (toPairsIn deps) [] = Ok localDeps ->
  fst (readUnversionedDepChecksumsAsync name deps m)
  = match promiseProps
            (map (fun kv =>
                    (fst kv,
                     fst (readPackageChecksumAsync
                            (path_resolve (cwd m) [packagePath; snd kv]) m)))
               localDeps) with
    | Ok sums => Ok (VObj (map (fun kv => (fst kv, VStr (snd kv))) sums))
    | Err e => Err e
    end.
Proof.
  intros packagePath Hcwd Hpkg Hlocal.
  pose proof (classify_NoDup _ _ _ _ (NoDup_nil_2 : NoDup (keys [])) Hlocal) as Hnd.
  unfold readUnversionedDepChecksumsAsync, bind, reads, filterLocalDeps, chdir.
  cbn [fst snd]. fold packagePath. rewrite Hpkg.
  cbn [fst snd cwd dirs set_cwd emit]. rewrite Hlocal, Hcwd.
  cbn [fst snd]. rewrite checksumPromises_fresh by done.
  cbn [app cwd set_cwd emit]. unfold lift.
  match goal with
  | |- fst (match promiseProps ?a with _ => _ end) = match promiseProps ?b with _ => _ end =>
      assert (a = b) as ->
        by (apply map_ext; intros kv; f_equal; by apply readPackageChecksumAsync_fst_ext)
  end.
  by destruct (promiseProps _).
Qed.

End LocalChecksums.

(** Scenario A, [pkgA] with a sibling linked by a relative path. *)
Lemma local_dependencies_are_checksummed_witness :
  let m := scenarioA in
  let packagePath := @path_resolve demoPlatform (cwd m) [root m; "pkgA"] in
  let localDeps := [("sibling", "/ws/pkgA/../pkgB")] in
  dirs m (cwd m) = true
  /\ dirs m packagePath = true
  /\ @classify demoPlatform packagePath (toPairsIn depsWithSibling) [] = Ok localDeps
  /\ fst (@readUnversionedDepChecksumsAsync demoPlatform "pkgA" depsWithSibling m)
     = match promiseProps
               (map (fun kv =>
                       (fst kv,
                        fst (@readPackageChecksumAsync demoPlatform
                               (@path_resolve demoPlatform (cwd m) [packagePath; snd kv]) m)))
                  localDeps) with
       | Ok sums => Ok (VObj (map (fun kv => (fst kv, VStr (snd kv))) sums))
       | Err e => Err e
       end.
Proof.
  cbv zeta. split; [reflexivity|]. split; [reflexivity|].
  split; [vm_compute; reflexivity|].
  apply (@local_dependencies_are_checksummed demoPlatform scenarioA "pkgA" depsWithSibling);
    vm_compute; reflexivity.
Defined.

Example scenarioA_sibling_checksum :
  fst (@readUnversionedDepChecksumsAsync demoPlatform "pkgA" depsWithSibling scenarioA)
  = Ok (VObj [("sibling", VStr "sha1:")]).
Proof. vm_compute. reflexivity. Qed.
